(** * The instance API of the wasmer C runtime (runtime-c-api/src/instance.rs)

    A shallow embedding of [wasmer_instantiate],
    [wasmer_instantiate_with_options], [prepare_middleware_chain_generator],
    [wasmer_instance_call], [wasmer_instance_exports], the instance context
    functions ([wasmer_instance_context_get], [_data_set], [_data_get],
    [_memory]) and [wasmer_instance_destroy].

    The runtime crates the file calls into (the compiler, instantiation,
    function calls, the opcode tracer, [set_points_limit]) are parameters of
    the development: Section variables whose behaviour the theorems do not
    assume beyond what each statement says. *)

From Stdlib Require Import Strings.String Strings.Byte NArith.
From stdpp Require Import base gmap strings list.

Open Scope N_scope.

(* ------------------------------------------------------------------ *)
(** ** Rust values shared by every entry point *)

(** [Result<T, E>]. *)
Inductive result (T E : Type) : Type :=
| Ok (t : T)
| Err (e : E).
Arguments Ok {T E} t.
Arguments Err {T E} e.

(** [wasmer_result_t]. *)
Inductive wasmer_result_t : Type :=
| WASMER_OK
| WASMER_ERROR.

(** A raw address; [0] is the null pointer. *)
Definition ptr : Type := N.

(* ------------------------------------------------------------------ *)
(** ** UTF-8 validation ([std::str::from_utf8], [CStr::to_str])

    The validation loop of [core::str::run_utf8_validation]: the first
    byte fixes the width of the sequence (table [UTF8_CHAR_WIDTH]), the
    second byte is range-checked per first byte (no overlong forms, no
    surrogates, nothing above U+10FFFF), the others are continuation
    bytes [0x80..0xBF]. *)

Definition in_range (lo hi : N) (b : byte) : bool :=
  (lo <=? Byte.to_N b) && (Byte.to_N b <=? hi).

Definition is_cont (b : byte) : bool := in_range 0x80 0xBF b.

Fixpoint run_utf8_validation (v : list byte) : bool :=
  match v with
  | [] => true
  | b1 :: rest =>
      if Byte.to_N b1 <? 0x80 then run_utf8_validation rest
      else if in_range 0xC2 0xDF b1 then
        match rest with
        | b2 :: rest' => is_cont b2 && run_utf8_validation rest'
        | [] => false
        end
      else if in_range 0xE0 0xEF b1 then
        match rest with
        | b2 :: b3 :: rest' =>
            let n1 := Byte.to_N b1 in
            let ok2 :=
              if n1 =? 0xE0 then in_range 0xA0 0xBF b2
              else if n1 =? 0xED then in_range 0x80 0x9F b2
              else is_cont b2 in
            ok2 && is_cont b3 && run_utf8_validation rest'
        | _ => false
        end
      else if in_range 0xF0 0xF4 b1 then
        match rest with
        | b2 :: b3 :: b4 :: rest' =>
            let n1 := Byte.to_N b1 in
            let ok2 :=
              if n1 =? 0xF0 then in_range 0x90 0xBF b2
              else if n1 =? 0xF4 then in_range 0x80 0x8F b2
              else is_cont b2 in
            ok2 && is_cont b3 && is_cont b4 && run_utf8_validation rest'
        | _ => false
        end
      else false
  end.

(** [std::str::from_utf8]: a Rust [&str] is the validated byte sequence;
    a Rocq [string] is a byte string, so the bytes are kept as they are. *)
Definition from_utf8 (v : list byte) : option string :=
  if run_utf8_validation v then Some (string_of_list_byte v) else None.

(* ------------------------------------------------------------------ *)
(** ** Compilation options and the middleware chain *)

(** [CompilationOptions]. *)
Record CompilationOptions : Type := {
  gas_limit : N;            (* u64 *)
  unmetered_locals : N;     (* usize *)
  opcode_trace : bool;
  metering : bool;
  runtime_breakpoints : bool
}.

(** The middleware passes pushed by the generator. [Metering] keeps the
    [unmetered_locals] it was built with (the cost table is the static
    [OPCODE_COSTS]). *)
Inductive Middleware : Type :=
| Metering (unmetered_locals : N)
| RuntimeBreakpointHandler
| OpcodeTracer.

(** [MiddlewareChain]: the passes in push order. *)
Definition MiddlewareChain := list Middleware.

(** [MiddlewareChain::push]. *)
Definition chain_push (chain : MiddlewareChain) (m : Middleware) : MiddlewareChain :=
  chain ++ [m].

Section Build.

(** Whether the crate is built with the [metering] Cargo feature: the
    [chain.push(metering::Metering::new(..))] statement carries
    [#[cfg(feature = "metering")]]. *)
Variable feature_metering : bool.

(** [prepare_middleware_chain_generator]: the closure [move || { .. }]
    that the compiler calls once per compilation. Each call starts from
    [MiddlewareChain::new()]. *)
Definition prepare_middleware_chain_generator (options : CompilationOptions)
    : unit -> MiddlewareChain :=
  fun _ =>
    let chain : MiddlewareChain := [] in
    let chain :=
      if metering options then
        if feature_metering
        then chain_push chain (Metering (unmetered_locals options))
        else chain
      else chain in
    let chain :=
      if runtime_breakpoints options
      then chain_push chain RuntimeBreakpointHandler else chain in
    let chain :=
      if opcode_trace options
      then chain_push chain OpcodeTracer else chain in
    chain.

End Build.

(** The chain as the spec describes it: the passes whose flags are set,
    metering first, breakpoints second, tracing last. *)
Definition spec_chain (options : CompilationOptions) : MiddlewareChain :=
  (if metering options then [Metering (unmetered_locals options)] else []) ++
  (if runtime_breakpoints options then [RuntimeBreakpointHandler] else []) ++
  (if opcode_trace options then [OpcodeTracer] else []).

(** [n] successive calls of a chain generator, as the streaming compiler
    makes them, one per compilation. *)
Definition invoke_generator (gen : unit -> MiddlewareChain) (n : nat)
    : list MiddlewareChain :=
  map (fun _ => gen tt) (seq 0 n).

(* ------------------------------------------------------------------ *)
(** ** Values and bindings crossing the boundary *)

(** [wasmer_runtime::Value]. Float payloads are kept as their IEEE bit
    patterns: the marshalling code only copies them. *)
Module Value.
Inductive t : Type :=
| I32 (x : Z)
| I64 (x : Z)
| F32 (bits : N)
| F64 (bits : N)
| V128 (x : N).
End Value.

(** [wasmer_value_tag]. *)
Inductive wasmer_value_tag : Type :=
| WASM_I32
| WASM_I64
| WASM_F32
| WASM_F64.

(** The C union [wasmer_value], by the field that was written. *)
Module wasmer_value.
Inductive t : Type :=
| I32 (x : Z)
| I64 (x : Z)
| F32 (bits : N)
| F64 (bits : N).
End wasmer_value.

(** [wasmer_value_t]. *)
Record wasmer_value_t : Type := {
  tag : wasmer_value_tag;
  value : wasmer_value.t
}.

(** [wasmer_runtime_core::export::Export]: shared handles to runtime
    resources, named by the resource they share; [clone] shares the
    resource, so a clone is the same value. *)
Inductive Export : Type :=
| Export_Function (f : N)
| Export_Memory (m : N)
| Export_Global (g : N)
| Export_Table (t : N).

(** [NamedExport] (export.rs). *)
Record NamedExport : Type := {
  ne_name : string;
  ne_export : Export;
  ne_instance : ptr
}.

(** [NamedExports(Vec<NamedExport>)]. *)
Definition NamedExports : Type := list NamedExport.

(** [wasmer_import_export_kind]. *)
Inductive wasmer_import_export_kind : Type :=
| WASM_FUNCTION
| WASM_GLOBAL
| WASM_MEMORY
| WASM_TABLE.

(** The C union [wasmer_import_export_value], by the field that was
    written: [func] points to an [Export], the others to a memory, a
    global or a table (named by the resource). *)
Inductive wasmer_import_export_value : Type :=
| IV_func (e : Export)
| IV_table (t : N)
| IV_memory (m : N)
| IV_global (g : N).

(** [wasmer_import_t]. The [wasmer_byte_array]s are the [bytes_len]
    bytes at [bytes]. *)
Record wasmer_import_t : Type := {
  module_name : list byte;
  import_name : list byte;
  import_tag : wasmer_import_export_kind;
  import_value : wasmer_import_export_value
}.

(** [Namespace]: import name to binding. *)
Abbreviation Namespace := (gmap string Export).

(** [ImportObject]: module name to namespace. *)
Abbreviation ImportObject := (gmap string Namespace).

(** Modelled from the spec: [Namespace::insert] (runtime-core), which
    "inserts/overwrites importName -> Binding". *)
Definition Namespace_insert (name : string) (e : Export) (ns : Namespace) : Namespace :=
  <[name := e]> ns.

(** Modelled from the spec: [ImportObject::register] (runtime-core), which
    makes the namespace the one of [name] in the import object. *)
Definition ImportObject_register (name : string) (ns : Namespace) (io : ImportObject)
    : ImportObject :=
  <[name := ns]> io.

(* ------------------------------------------------------------------ *)
(** ** A concrete runtime

    A small runtime to run the entry points on concrete inputs: an
    instance is its list of exports, compilation and instantiation fail on
    an empty buffer, and every call returns [I32 7]. *)

Definition toy_instance : Type := list (string * Export).

Definition toy_exports : toy_instance :=
  [("sum", Export_Function 0); ("memory", Export_Memory 0)].

Definition toy_error_to_string (e : string) : string := e.

Definition toy_runtime_instantiate (bytes : list byte) (io : ImportObject)
    : result toy_instance string :=
  match bytes with
  | [] => Err "unexpected end of module"
  | _ :: _ => Ok toy_exports
  end.

Definition toy_compile_with (gen : unit -> MiddlewareChain) (bytes : list byte)
    : result unit string :=
  match bytes with
  | [] => Err "unexpected end of module"
  | _ :: _ => Ok tt
  end.

Definition toy_module_instantiate (m : unit) (io : ImportObject) : result toy_instance string :=
  Ok toy_exports.

Definition toy_call (i : toy_instance) (name : string) (params : list Value.t)
    : toy_instance * result (list Value.t) string :=
  (i, Ok [Value.I32 7]).

Definition toy_value_of_wasmer_value (v : wasmer_value_t) : Value.t :=
  match value v with
  | wasmer_value.I32 x => Value.I32 x
  | wasmer_value.I64 x => Value.I64 x
  | wasmer_value.F32 x => Value.F32 x
  | wasmer_value.F64 x => Value.F64 x
  end.

(* ------------------------------------------------------------------ *)
(** ** The runtime and the caller's memory *)

(** The function import [env.f] bound to function index [f]. *)
Definition env_import (f : N) : wasmer_import_t :=
  {| module_name := [x65; x6e; x76]; import_name := [x66];
     import_tag := WASM_FUNCTION; import_value := IV_func (Export_Function f) |}.

Section Runtime.

(** [wasmer_runtime::Instance], a compiled [Module], the runtime's error
    type with its [Display] text, and an [ExportIndex] of module info. *)
Variables Instance Module RuntimeError ExportIndex : Type.
Variable error_to_string : RuntimeError -> string.

(** [wasmer_runtime::instantiate(bytes, &import_object)]. *)
Variable runtime_instantiate : list byte -> ImportObject -> result Instance RuntimeError.
(** [wasmer_runtime_core::compile_with(bytes, &get_compiler(chain_generator))]:
    the streaming compiler calls the chain generator per compilation. *)
Variable compile_with : (unit -> MiddlewareChain) -> list byte -> result Module RuntimeError.
(** [Module::instantiate]. *)
Variable module_instantiate : Module -> ImportObject -> result Instance RuntimeError.
(** The pointee of [GLOBAL_IMPORT_OBJECT] (import.rs). *)
Variable GLOBAL_IMPORT_OBJECT : ImportObject.
(** [metering::set_points_limit(&mut instance, limit)]. *)
Variable set_points_limit : Instance -> N -> Instance.
(** [Instance::exports()]: the instance's exports in enumeration order. *)
Variable instance_exports : Instance -> list (string * Export).
(** [Instance::call(name, &params)], which may change the instance. *)
Variable instance_call : Instance -> string -> list Value.t -> Instance * result (list Value.t) RuntimeError.
(** [From<wasmer_value_t> for Value] (value.rs). *)
Variable value_of_wasmer_value : wasmer_value_t -> Value.t.
(** [opcode_trace::reset_opcodetracer_last_location] and
    [opcode_trace::get_opcodetracer_last_location]. *)
Variable reset_opcodetracer_last_location : Instance -> Instance.
Variable get_opcodetracer_last_location : Instance -> N.
(** [instance.module.info.name_table] and [instance.module.info.exports]. *)
Variable info_name_table : Instance -> list string.
Variable info_exports : Instance -> list (string * ExportIndex).

(** Objects behind a [Box::into_raw] pointer. *)
Inductive heap_obj : Type :=
| HInstance (i : Instance)
| HExports (e : NamedExports).

(** A line written by [println!]. *)
Inductive stdout_line : Type :=
| LImport (i : nat) (name : string)
| LExport (index : ExportIndex) (name : string)
| LLastLocation (loc : N).

(** The process state the entry points read and write: the thread's last
    error ([update_last_error]), the boxed objects, the caller's out-cells
    [*instance] and [*exports], the caller's [results] buffer (its
    [results_len] entries), and standard output. *)
Record World : Type := mkWorld {
  last_error : option string;
  heap : gmap N heap_obj;
  next_addr : N;
  instance_out : ptr;
  exports_out : ptr;
  results_buf : list wasmer_value_t;
  stdout : list stdout_line
}.

(** The end of an entry point: it returns (with the state it leaves), or
    panics (a panic inside an [extern "C"] function ends the process), or
    the Rust code has undefined behaviour. *)
Inductive outcome (A : Type) : Type :=
| Done (a : A) (w : World)
| Panic (msg : string)
| Undefined.
Arguments Done {A} a w.
Arguments Panic {A} msg.
Arguments Undefined {A}.

(** A state monad over [World] with panics. *)
Definition M (A : Type) : Type := World -> outcome A.

Definition ret {A} (a : A) : M A := fun w => Done a w.

Definition bind {A B} (m : M A) (k : A -> M B) : M B :=
  fun w => match m w with
           | Done a w' => k a w'
           | Panic msg => Panic msg
           | Undefined => Undefined
           end.

Notation "x <- m ;; k" := (bind m (fun x => k))
  (at level 100, m at next level, right associativity).
Notation "m ;;; k" := (bind m (fun _ => k))
  (at level 100, right associativity).

Definition panic {A} (msg : string) : M A := fun _ => Panic msg.
Definition undefined {A} : M A := fun _ => Undefined.

(** [update_last_error]: the message replaces the previous one. *)
Definition update_last_error (msg : string) : M unit :=
  fun w => Done tt (mkWorld (Some msg) (heap w) (next_addr w) (instance_out w)
                            (exports_out w) (results_buf w) (stdout w)).

(** [Box::into_raw(Box::new(o))]: a fresh non-null address. *)
Definition box_into_raw (o : heap_obj) : M ptr :=
  fun w => let p := next_addr w in
    Done p (mkWorld (last_error w) (<[p := o]> (heap w)) (p + 1) (instance_out w)
                    (exports_out w) (results_buf w) (stdout w)).

(** [*instance = p]. *)
Definition write_instance_out (p : ptr) : M unit :=
  fun w => Done tt (mkWorld (last_error w) (heap w) (next_addr w) p
                            (exports_out w) (results_buf w) (stdout w)).

(** [*exports = p]. *)
Definition write_exports_out (p : ptr) : M unit :=
  fun w => Done tt (mkWorld (last_error w) (heap w) (next_addr w) (instance_out w)
                            p (results_buf w) (stdout w)).

(** [results[0] = v] on the slice of [results_len] entries: Rust's bounds
    check panics on an empty slice. *)
Definition write_result0 (v : wasmer_value_t) : M unit :=
  fun w => match results_buf w with
    | [] => Panic "index out of bounds: the len is 0 but the index is 0"
    | _ :: tl => Done tt (mkWorld (last_error w) (heap w) (next_addr w) (instance_out w)
                                  (exports_out w) (v :: tl) (stdout w))
    end.

(** [println!]. *)
Definition println (l : stdout_line) : M unit :=
  fun w => Done tt (mkWorld (last_error w) (heap w) (next_addr w) (instance_out w)
                            (exports_out w) (results_buf w) (stdout w ++ [l])).

(** [&mut *(p as *mut Instance)]: undefined unless [p] is a boxed instance. *)
Definition deref_instance (p : ptr) : M Instance :=
  fun w => match heap w !! p with
    | Some (HInstance i) => Done i w
    | _ => Undefined
    end.

(** Writing through that reference. *)
Definition store_instance (p : ptr) (i : Instance) : M unit :=
  fun w => Done tt (mkWorld (last_error w) (<[p := HInstance i]> (heap w)) (next_addr w)
                            (instance_out w) (exports_out w) (results_buf w) (stdout w)).

(* ------------------------------------------------------------------ *)
(** ** [wasmer_instantiate] *)

(** The [match import.tag] of the import loop: the union field the tag
    names is read; a union holding another field is read through a pointer
    of the wrong type (the source's "TODO check that tag is actually in
    bounds"), which [None] marks. *)
Definition import_binding (t : wasmer_import_export_kind)
    (v : wasmer_import_export_value) : option Export :=
  match t, v with
  | WASM_MEMORY, IV_memory m => Some (Export_Memory m)
  | WASM_FUNCTION, IV_func e => Some e
  | WASM_GLOBAL, IV_global g => Some (Export_Global g)
  | WASM_TABLE, IV_table tb => Some (Export_Table tb)
  | _, _ => None
  end.

Definition import_export (t : wasmer_import_export_kind)
    (v : wasmer_import_export_value) : M Export :=
  match import_binding t v with
  | Some e => ret e
  | None => undefined
  end.

(** The [for import in imports] loop: [Ok namespaces] when it runs to
    the end, [Err r] when the function returns [r] from inside it. *)
Fixpoint register_imports (imports : list wasmer_import_t)
    (namespaces : gmap string Namespace)
    : M (result (gmap string Namespace) wasmer_result_t) :=
  match imports with
  | [] => ret (Ok namespaces)
  | import :: rest =>
      match from_utf8 (module_name import) with
      | None =>
          update_last_error "error converting module name to string" ;;;
          ret (Err WASMER_ERROR)
      | Some mname =>
          match from_utf8 (import_name import) with
          | None =>
              update_last_error "error converting import_name to string" ;;;
              ret (Err WASMER_ERROR)
          | Some iname =>
              (* namespaces.entry(module_name).or_insert_with(Namespace::new) *)
              let namespace := default ∅ (namespaces !! mname) in
              export <- import_export (import_tag import) (import_value import) ;;
              let namespaces :=
                <[mname := Namespace_insert iname export namespace]> namespaces in
              register_imports rest namespaces
          end
      end
  end.

(** [for (module_name, namespace) in namespaces.into_iter()
      { import_object.register(module_name, namespace) }]. *)
Definition finalize_imports (namespaces : gmap string Namespace) : ImportObject :=
  foldr (fun '(mname, ns) io => ImportObject_register mname ns io) ∅
        (map_to_list namespaces).

(** [wasmer_instantiate(instance, wasm_bytes, wasm_bytes_len, imports,
    imports_len)]: [wasm_bytes] is [None] for a null pointer and
    [Some bytes] for the [wasm_bytes_len] bytes it points to; [imports] is
    the slice of [imports_len] imports; [instance] is the out-cell
    [instance_out]. *)
Definition wasmer_instantiate (wasm_bytes : option (list byte))
    (imports : list wasmer_import_t) : M wasmer_result_t :=
  match wasm_bytes with
  | None =>
      update_last_error "wasm bytes ptr is null" ;;;
      ret WASMER_ERROR
  | Some bytes =>
      r <- register_imports imports ∅ ;;
      match r with
      | Err code => ret code
      | Ok namespaces =>
          let import_object := finalize_imports namespaces in
          match runtime_instantiate bytes import_object with
          | Err error =>
              update_last_error (error_to_string error) ;;;
              ret WASMER_ERROR
          | Ok new_instance =>
              p <- box_into_raw (HInstance new_instance) ;;
              write_instance_out p ;;;
              ret WASMER_OK
          end
      end
  end.

(* ------------------------------------------------------------------ *)
(** ** [wasmer_instantiate_with_options] *)

(** [wasmer_instantiate_with_options(instance, wasm_bytes, wasm_bytes_len,
    options)]. The function exists only under
    [#[cfg(feature = "metering")]], so the generator it builds is the one
    of a build with that feature. *)
Definition wasmer_instantiate_with_options (wasm_bytes : option (list byte))
    (options : CompilationOptions) : M wasmer_result_t :=
  match wasm_bytes with
  | None =>
      update_last_error "wasm bytes ptr is null" ;;;
      ret WASMER_ERROR
  | Some bytes =>
      let compiler_chain_generator := prepare_middleware_chain_generator true options in
      match compile_with compiler_chain_generator bytes with
      | Err _ =>
          update_last_error "compile error" ;;;
          ret WASMER_ERROR
      | Ok new_module =>
          match module_instantiate new_module GLOBAL_IMPORT_OBJECT with
          | Err error =>
              update_last_error (error_to_string error) ;;;
              ret WASMER_ERROR
          | Ok new_instance =>
              let new_instance := set_points_limit new_instance (gas_limit options) in
              p <- box_into_raw (HInstance new_instance) ;;
              write_instance_out p ;;;
              ret WASMER_OK
          end
      end
  end.

(* ------------------------------------------------------------------ *)
(** ** [wasmer_instance_call] *)

(** [CStr::from_ptr]: the bytes before the first NUL of the memory at the
    pointer; reading past the end without a NUL is undefined. *)
Fixpoint cstr_bytes (mem : list byte) : option (list byte) :=
  match mem with
  | [] => None
  | b :: rest =>
      if Byte.eqb b x00 then Some []
      else match cstr_bytes rest with
           | Some s => Some (b :: s)
           | None => None
           end
  end.

Definition cstr_from_ptr (mem : list byte) : M (list byte) :=
  match cstr_bytes mem with
  | Some s => ret s
  | None => undefined
  end.

(** [func_name_c.to_str().unwrap()]. *)
Definition to_str_unwrap (s : list byte) : M string :=
  match from_utf8 s with
  | Some r => ret r
  | None => panic "called `Result::unwrap()` on an `Err` value: Utf8Error"
  end.

(** The [match results_vec[0]] that builds the [wasmer_value_t]. *)
Definition marshal_result (v : Value.t) : M wasmer_value_t :=
  match v with
  | Value.I32 x => ret {| tag := WASM_I32; value := wasmer_value.I32 x |}
  | Value.I64 x => ret {| tag := WASM_I64; value := wasmer_value.I64 x |}
  | Value.F32 x => ret {| tag := WASM_F32; value := wasmer_value.F32 x |}
  | Value.F64 x => ret {| tag := WASM_F64; value := wasmer_value.F64 x |}
  | Value.V128 _ => panic "not implemented: calling function with V128 parameter"
  end.

(** [for i in 0..imported_functions.len() { println!("Import {}\t{}", ..) }]. *)
Fixpoint print_imports (i : nat) (names : list string) : M unit :=
  match names with
  | [] => ret tt
  | n :: rest => println (LImport i n) ;;; print_imports (S i) rest
  end.

(** [for (k, v) in instance.module.info.exports.iter()
      { println!("Export {:?}\t{}", v, k) }]. *)
Fixpoint print_exports (es : list (string * ExportIndex)) : M unit :=
  match es with
  | [] => ret tt
  | (k, v) :: rest => println (LExport v k) ;;; print_exports rest
  end.

(** The end of [wasmer_instance_call]: when the opcode tracer recorded a
    location, print the module's imports, exports and that location. *)
Definition report_last_opcode_location (inst : Instance) : M unit :=
  let last_opcode_location := get_opcodetracer_last_location inst in
  if decide (0 < last_opcode_location) then
    print_imports 0 (info_name_table inst) ;;;
    print_exports (info_exports inst) ;;;
    println (LLastLocation last_opcode_location)
  else ret tt.

(** [wasmer_instance_call(instance, name, params, params_len, results,
    results_len)]: [name] is [None] for a null pointer and [Some mem] for
    the memory it points to; [params] likewise with the [params_len]
    values; the [results_len] entries at [results] are [results_buf]. *)
Definition wasmer_instance_call (instance : ptr) (name : option (list byte))
    (params : option (list wasmer_value_t)) : M wasmer_result_t :=
  if decide (instance = 0) then
    update_last_error "instance ptr is null" ;;; ret WASMER_ERROR
  else match name with
  | None => update_last_error "name ptr is null" ;;; ret WASMER_ERROR
  | Some name_mem =>
  match params with
  | None => update_last_error "params ptr is null" ;;; ret WASMER_ERROR
  | Some params =>
      let params := map value_of_wasmer_value params in
      func_name_c <- cstr_from_ptr name_mem ;;
      func_name_r <- to_str_unwrap func_name_c ;;
      inst <- deref_instance instance ;;
      let inst := reset_opcodetracer_last_location inst in
      store_instance instance inst ;;;
      let '(inst, result) := instance_call inst func_name_r params in
      store_instance instance inst ;;;
      code <- match result with
        | Ok results_vec =>
            match results_vec with
            | [] => ret tt
            | v :: _ => r <- marshal_result v ;; write_result0 r
            end ;;;
            ret WASMER_OK
        | Err err =>
            update_last_error (error_to_string err) ;;;
            ret WASMER_ERROR
        end ;;
      report_last_opcode_location inst ;;;
      ret code
  end
  end.

(* ------------------------------------------------------------------ *)
(** ** [wasmer_instance_exports] *)

(** The loop pushing one [NamedExport] per export. *)
Fixpoint push_named_exports (instance : ptr) (exports_vec : NamedExports)
    (es : list (string * Export)) : NamedExports :=
  match es with
  | [] => exports_vec
  | (name, export) :: rest =>
      push_named_exports instance
        (exports_vec ++ [{| ne_name := name; ne_export := export; ne_instance := instance |}])
        rest
  end.

(** [wasmer_instance_exports(instance, exports)]; [exports] is the
    out-cell [exports_out]. *)
Definition wasmer_instance_exports (instance : ptr) : M unit :=
  if decide (instance = 0) then ret tt
  else
    instance_ref <- deref_instance instance ;;
    let exports_vec := push_named_exports instance [] (instance_exports instance_ref) in
    named_exports <- box_into_raw (HExports exports_vec) ;;
    write_exports_out named_exports.

(** Everything but standard output is as it was. *)
Definition only_stdout_changed (w w' : World) : Prop :=
  last_error w' = last_error w /\ heap w' = heap w /\ next_addr w' = next_addr w /\
  instance_out w' = instance_out w /\ exports_out w' = exports_out w /\
  results_buf w' = results_buf w.

(** An import the loop accepts: both names are valid UTF-8 and the union
    holds the field its tag names. *)
Definition import_well_tagged (imp : wasmer_import_t) : Prop :=
  is_Some (import_binding (import_tag imp) (import_value imp)).

Definition import_valid (imp : wasmer_import_t) : Prop :=
  is_Some (from_utf8 (module_name imp)) /\ is_Some (from_utf8 (import_name imp)) /\
  import_well_tagged imp.

(** One round of the import loop on an accepted import, as a function of
    the namespaces. *)
Definition register_one (namespaces : gmap string Namespace) (imp : wasmer_import_t)
    : gmap string Namespace :=
  match from_utf8 (module_name imp), from_utf8 (import_name imp),
        import_binding (import_tag imp) (import_value imp) with
  | Some mname, Some iname, Some e =>
      <[mname := Namespace_insert iname e (default ∅ (namespaces !! mname))]> namespaces
  | _, _, _ => namespaces
  end.

(** Modelled from the spec: module parsing (runtime-core, outside this
    crate) rejects a zero-length byte buffer, which the spec calls a caller
    error and which is malformed bytecode: both [wasmer_runtime::instantiate]
    and [compile_with] fail on it. *)
Definition rejects_empty_bytes : Prop :=
  (forall io : ImportObject, exists e, runtime_instantiate [] io = Err e) /\
  (forall gen : unit -> MiddlewareChain, exists e, compile_with gen [] = Err e).

(* ------------------------------------------------------------------ *)
(** ** The instance context and [wasmer_instance_destroy] *)

(** The parts of a [vm::Ctx] this file does not read. *)
Variable CtxInternals : Type.

(** [vm::Ctx], with its public field [data] (the user's [*mut c_void]). *)
Record Ctx : Type := mkCtx {
  ctx_internals : CtxInternals;
  data : ptr
}.

(** [instance.context() as *const Ctx]: the address of the context the
    instance owns ([InstanceInner::vmctx]). *)
Variable instance_context : Instance -> ptr.
(** [Ctx::memory(index)]: the address of that memory, or a panic. *)
Variable ctx_memory : CtxInternals -> N -> result ptr string.

(** The state of the context API: the state of the other entry points and
    the contexts of the live instances, by address. *)
Record CWorld : Type := mkCWorld {
  world : World;
  contexts : gmap ptr Ctx
}.

Inductive coutcome (A : Type) : Type :=
| CDone (a : A) (cw : CWorld)
| CPanic (msg : string)
| CUndefined.
Arguments CDone {A} a cw.
Arguments CPanic {A} msg.
Arguments CUndefined {A}.

Definition CM (A : Type) : Type := CWorld -> coutcome A.

Definition cret {A} (a : A) : CM A := fun cw => CDone a cw.

Definition cbind {A B} (m : CM A) (k : A -> CM B) : CM B :=
  fun cw => match m cw with
            | CDone a cw' => k a cw'
            | CPanic msg => CPanic msg
            | CUndefined => CUndefined
            end.

Notation "x <-- m ;; k" := (cbind m (fun x => k))
  (at level 100, m at next level, right associativity).
Notation "m ;;;; k" := (cbind m (fun _ => k))
  (at level 100, right associativity).

Definition cpanic {A} (msg : string) : CM A := fun _ => CPanic msg.

(** An operation on [World] run on the [world] part. *)
Definition lift {A} (m : M A) : CM A :=
  fun cw => match m (world cw) with
            | Done a w => CDone a (mkCWorld w (contexts cw))
            | Panic msg => CPanic msg
            | Undefined => CUndefined
            end.

(** [&*(ctx as *const Ctx)]: undefined unless [ctx] is a live context. *)
Definition deref_ctx (ctx : ptr) : CM Ctx :=
  fun cw => if decide (ctx = 0) then CUndefined
            else match contexts cw !! ctx with
                 | Some c => CDone c cw
                 | None => CUndefined
                 end.

(** Writing through [instance.context_mut()]. *)
Definition store_ctx (ctx : ptr) (c : Ctx) : CM unit :=
  fun cw => CDone tt (mkCWorld (world cw) (<[ctx := c]> (contexts cw))).

(** Dropping [Box::from_raw(p)]: the boxed object is freed. *)
Definition free_box (p : ptr) : M unit :=
  fun w => Done tt (mkWorld (last_error w) (delete p (heap w)) (next_addr w)
                            (instance_out w) (exports_out w) (results_buf w) (stdout w)).

(** The instance's [Drop] frees its context ([InstanceInner] frees
    [vmctx]). *)
Definition free_ctx (ctx : ptr) : CM unit :=
  fun cw => CDone tt (mkCWorld (world cw) (delete ctx (contexts cw))).

(** [wasmer_instance_context_get(instance)]. *)
Definition wasmer_instance_context_get (instance : ptr) : CM ptr :=
  if decide (instance = 0) then cret 0
  else
    inst <-- lift (deref_instance instance) ;;
    cret (instance_context inst).

(** [wasmer_instance_context_data_set(instance, data_ptr)]. *)
Definition wasmer_instance_context_data_set (instance data_ptr : ptr) : CM unit :=
  if decide (instance = 0) then cret tt
  else
    inst <-- lift (deref_instance instance) ;;
    let ctx := instance_context inst in
    c <-- deref_ctx ctx ;;
    store_ctx ctx (mkCtx (ctx_internals c) data_ptr).

(** [wasmer_instance_context_memory(ctx, _memory_idx)]: the index is not
    used, the memory is [ctx.memory(0)]. *)
Definition wasmer_instance_context_memory (ctx : ptr) (memory_idx : N) : CM ptr :=
  c <-- deref_ctx ctx ;;
  match ctx_memory (ctx_internals c) 0 with
  | Ok memory => cret memory
  | Err msg => cpanic msg
  end.

(** [wasmer_instance_context_data_get(ctx)]. *)
Definition wasmer_instance_context_data_get (ctx : ptr) : CM ptr :=
  if decide (ctx = 0) then cret 0
  else
    c <-- deref_ctx ctx ;;
    cret (data c).

(** [wasmer_instance_destroy(instance)]: [Box::from_raw] on a pointer
    that is not a boxed instance is undefined. *)
Definition wasmer_instance_destroy (instance : ptr) : CM unit :=
  if decide (instance = 0) then cret tt
  else
    inst <-- lift (deref_instance instance) ;;
    lift (free_box instance) ;;;;
    free_ctx (instance_context inst).

(** The allocation invariant of the boxes: address [0] holds nothing and
    every address from [next_addr] on is free. *)
Definition heap_wf (w : World) : Prop :=
  0 < next_addr w /\ heap w !! 0 = None /\
  forall a, next_addr w <= a -> heap w !! a = None.

(** The lines [wasmer_instance_call] prints when the opcode tracer of
    [inst] recorded a location. *)
Definition opcode_report_lines (inst : Instance) : list stdout_line :=
  let loc := get_opcodetracer_last_location inst in
  if decide (0 < loc) then
    zip_with LImport (seq 0 (length (info_name_table inst))) (info_name_table inst) ++
    map (fun '(k, v) => LExport v k) (info_exports inst) ++
    [LLastLocation loc]
  else [].

(* ------------------------------------------------------------------ *)
(** ** Frame lemmas for the primitives *)

Lemma bind_Done {A B} (m : M A) (k : A -> M B) w a w' :
  m w = Done a w' -> bind m k w = k a w'.
Proof. unfold bind. intros ->. reflexivity. Qed.

Lemma push_named_exports_app (instance : ptr) (acc : NamedExports) es :
  push_named_exports instance acc es =
  acc ++ map (fun '(name, export) =>
                {| ne_name := name; ne_export := export; ne_instance := instance |}) es.
Proof.
  revert acc. induction es as [|[n e] es IH]; intros acc; simpl.
  - by rewrite app_nil_r.
  - rewrite IH. by rewrite <- app_assoc.
Qed.

(** C10: with a null instance pointer, [wasmer_instance_exports] returns
    and leaves the whole state as it was: the out-cell [*exports] and the
    error channel are untouched, and there is no status to return. *)
Lemma wasmer_instance_exports_null (w : World) :
  wasmer_instance_exports 0 w = Done tt w.
Proof. reflexivity. Qed.

(** C7: for a non-null pointer [p] to an instance [i],
    [wasmer_instance_exports] stores into [*exports] a fresh box holding
    one [NamedExport] per export of [i], in the instance's enumeration
    order, each with the export's name, the (shared) binding and the
    back-pointer [p]; nothing else changes. *)
Lemma wasmer_instance_exports_snapshot (p : ptr) (i : Instance) (w : World) :
  p <> 0 -> heap w !! p = Some (HInstance i) ->
  exists xs : NamedExports,
    wasmer_instance_exports p w =
      Done tt (mkWorld (last_error w) (<[next_addr w := HExports xs]> (heap w))
                       (next_addr w + 1) (instance_out w) (next_addr w)
                       (results_buf w) (stdout w))
    /\ length xs = length (instance_exports i)
    /\ map ne_name xs = map fst (instance_exports i)
    /\ map ne_export xs = map snd (instance_exports i)
    /\ Forall (fun ne => ne_instance ne = p) xs.
Proof.
  intros Hp Hi.
  exists (map (fun '(name, export) =>
                {| ne_name := name; ne_export := export; ne_instance := p |})
              (instance_exports i)).
  unfold wasmer_instance_exports.
  rewrite decide_False by exact Hp.
  unfold bind at 1, deref_instance. rewrite Hi.
  rewrite push_named_exports_app. simpl.
  split; [reflexivity|].
  induction (instance_exports i) as [|[n e] es IH]; simpl.
  - repeat split; constructor.
  - destruct IH as (H1 & H2 & H3 & H4).
    repeat split; try congruence. by constructor.
Qed.

Lemma only_stdout_changed_trans w1 w2 w3 :
  only_stdout_changed w1 w2 -> only_stdout_changed w2 w3 -> only_stdout_changed w1 w3.
Proof. unfold only_stdout_changed. intuition congruence. Qed.

Lemma println_frame l w : exists w', println l w = Done tt w' /\ only_stdout_changed w w'.
Proof. eexists. split; [reflexivity|]. repeat split. Qed.

Lemma print_imports_frame i names w :
  exists w', print_imports i names w = Done tt w' /\ only_stdout_changed w w'.
Proof.
  revert i w. induction names as [|n names IH]; intros i w; simpl.
  - exists w. split; [reflexivity|]. repeat split.
  - destruct (println_frame (LImport i n) w) as (w1 & H1 & F1).
    destruct (IH (S i) w1) as (w2 & H2 & F2).
    exists w2. split.
    + unfold bind. rewrite H1. exact H2.
    + eapply only_stdout_changed_trans; eauto.
Qed.

Lemma print_exports_frame es w :
  exists w', print_exports es w = Done tt w' /\ only_stdout_changed w w'.
Proof.
  revert w. induction es as [|[k v] es IH]; intros w; simpl.
  - exists w. split; [reflexivity|]. repeat split.
  - destruct (println_frame (LExport v k) w) as (w1 & H1 & F1).
    destruct (IH w1) as (w2 & H2 & F2).
    exists w2. split.
    + unfold bind. rewrite H1. exact H2.
    + eapply only_stdout_changed_trans; eauto.
Qed.

(** The opcode-trace report at the end of [wasmer_instance_call] only
    prints. *)
Lemma report_last_opcode_location_frame (inst : Instance) w :
  exists w', report_last_opcode_location inst w = Done tt w'
    /\ only_stdout_changed w w'.
Proof.
  unfold report_last_opcode_location. destruct (decide _).
  - destruct (print_imports_frame 0 (info_name_table inst) w) as (w1 & H1 & F1).
    destruct (print_exports_frame (info_exports inst) w1) as (w2 & H2 & F2).
    destruct (println_frame (LLastLocation (get_opcodetracer_last_location inst)) w2)
      as (w3 & H3 & F3).
    exists w3. unfold bind. rewrite H1, H2, H3. split; [reflexivity|].
    eapply only_stdout_changed_trans; [eauto|].
    eapply only_stdout_changed_trans; eauto.
  - exists w. split; [reflexivity|]. repeat split.
Qed.

Lemma cstr_bytes_app (s rest : list byte) :
  x00 ∉ s -> cstr_bytes (s ++ x00 :: rest) = Some s.
Proof.
  induction s as [|b s IH]; intros Hs; simpl; [reflexivity|].
  destruct (Byte.eqb b x00) eqn:E.
  - apply Byte.byte_dec_bl in E. subst. exfalso. apply Hs. left.
  - rewrite IH; [reflexivity|]. intros Hin. apply Hs. by right.
Qed.

(** C3 (the code's behaviour): with a non-null instance and non-null
    [params], a name whose bytes before the NUL are not valid UTF-8 makes
    [to_str().unwrap()] panic; the function does not return. *)
Theorem wasmer_instance_call_invalid_utf8_name_panics
    (p : ptr) (s : list byte) (params : list wasmer_value_t) (w : World) :
  p <> 0 -> x00 ∉ s -> run_utf8_validation s = false ->
  wasmer_instance_call p (Some (s ++ [x00])) (Some params) w =
    Panic "called `Result::unwrap()` on an `Err` value: Utf8Error".
Proof.
  intros Hp Hs Hv.
  unfold wasmer_instance_call. rewrite decide_False by exact Hp.
  unfold bind at 1, cstr_from_ptr. rewrite cstr_bytes_app by exact Hs.
  unfold ret, bind at 1, to_str_unwrap, from_utf8. rewrite Hv.
  reflexivity.
Qed.

(** Unfolds [wasmer_instance_call] up to the call of the export, for a
    non-null instance [p], a NUL-terminated valid name and non-null
    [params]. *)
Ltac unfold_call_prefix Hp Hs Hf Hi :=
  unfold wasmer_instance_call; rewrite decide_False by exact Hp;
  unfold cstr_from_ptr, to_str_unwrap, deref_instance, store_instance, marshal_result,
    write_result0, update_last_error, bind, ret, panic, undefined;
  rewrite cstr_bytes_app by exact Hs;
  cbn -[report_last_opcode_location from_utf8 cstr_bytes];
  rewrite Hf; cbn -[report_last_opcode_location from_utf8 cstr_bytes];
  rewrite Hi; cbn -[report_last_opcode_location from_utf8 cstr_bytes].

(** C6 (the code's behaviour): when the export's first result is a
    128-bit vector, [wasmer_instance_call] panics in [unimplemented!];
    for the four other kinds it panics as well when the caller's results
    buffer is empty ([results_len = 0]), at [results[0] = ret], and
    returns [WASMER_OK] otherwise. *)
Theorem wasmer_instance_call_first_result
    (p : ptr) (s : list byte) (fname : string) (params : list wasmer_value_t)
    (i i' : Instance) (v : Value.t) (vs : list Value.t) (w : World) :
  p <> 0 -> x00 ∉ s -> from_utf8 s = Some fname -> heap w !! p = Some (HInstance i) ->
  instance_call (reset_opcodetracer_last_location i) fname
    (map value_of_wasmer_value params) = (i', Ok (v :: vs)) ->
  ((exists x, v = Value.V128 x) ->
     wasmer_instance_call p (Some (s ++ [x00])) (Some params) w =
       Panic "not implemented: calling function with V128 parameter")
  /\ ((forall x, v <> Value.V128 x) -> results_buf w = [] ->
     wasmer_instance_call p (Some (s ++ [x00])) (Some params) w =
       Panic "index out of bounds: the len is 0 but the index is 0")
  /\ ((forall x, v <> Value.V128 x) -> results_buf w <> [] ->
     exists w', wasmer_instance_call p (Some (s ++ [x00])) (Some params) w = Done WASMER_OK w').
Proof.
  intros Hp Hs Hf Hi Hc.
  unfold_call_prefix Hp Hs Hf Hi.
  rewrite Hc. cbn -[report_last_opcode_location].
  split; [|split].
  - intros [x ->]. reflexivity.
  - intros Hv Hr.
    destruct v as [x|x|x|x|x]; try (exfalso; by apply (Hv x));
      cbn -[report_last_opcode_location]; by rewrite Hr.
  - intros Hv Hr.
    destruct v as [x|x|x|x|x]; try (exfalso; by apply (Hv x));
      cbn -[report_last_opcode_location];
      destruct (results_buf w) as [|r rs]; try congruence;
      cbn -[report_last_opcode_location];
      match goal with
      | |- context [report_last_opcode_location ?inst ?w1] =>
          destruct (report_last_opcode_location_frame inst w1) as (w2 & H2 & _);
          rewrite H2; eexists; reflexivity
      end.
Qed.

Lemma report_last_opcode_location_Done (inst : Instance) u w w' :
  report_last_opcode_location inst w = Done u w' -> only_stdout_changed w w'.
Proof.
  intros H. destruct (report_last_opcode_location_frame inst w) as (w2 & H2 & F2).
  rewrite H2 in H. by injection H as _ <-.
Qed.

(** Case analysis on every [match] of the hypotheses, with the
    equations of [Done] results substituted. *)
Ltac crush_matches :=
  repeat (cbn -[report_last_opcode_location from_utf8 cstr_bytes] in *;
    match goal with
    | H : Done _ _ = Done _ _ |- _ => injection H; clear H; intros; subst
    | H : Panic _ = Done _ _ |- _ => discriminate H
    | H : Undefined = Done _ _ |- _ => discriminate H
    | H : WASMER_OK = WASMER_ERROR |- _ => discriminate H
    | H : WASMER_ERROR = WASMER_OK |- _ => discriminate H
    | H : context [match ?x with _ => _ end] |- _ => destruct x eqn:?
    end).

(** C4, [wasmer_instance_call]: when it returns [WASMER_ERROR], the
    caller's results buffer and instance out-cell are as they were; when
    the export returns no value, the results buffer is as it was too. *)
Lemma wasmer_instance_call_error_frame (p : ptr) (name : option (list byte))
    (params : option (list wasmer_value_t)) (w w' : World) :
  wasmer_instance_call p name params w = Done WASMER_ERROR w' ->
  results_buf w' = results_buf w /\ instance_out w' = instance_out w.
Proof.
  unfold wasmer_instance_call, cstr_from_ptr, to_str_unwrap, deref_instance,
    store_instance, marshal_result, write_result0, update_last_error, bind, ret,
    panic, undefined.
  intros H. crush_matches; try (split; reflexivity);
    match goal with
    | E : report_last_opcode_location _ _ = Done _ _ |- _ =>
        apply report_last_opcode_location_Done in E;
        destruct E as (_ & _ & _ & E1 & _ & E2); cbn in E1, E2;
        split; congruence
    end.
Qed.

(** The import loop only writes the error channel, and it returns early
    only with [WASMER_ERROR] after storing a message. *)
Lemma register_imports_frame (imports : list wasmer_import_t)
    (namespaces : gmap string Namespace) (w w' : World) r :
  register_imports imports namespaces w = Done r w' ->
  heap w' = heap w /\ next_addr w' = next_addr w /\ instance_out w' = instance_out w /\
  exports_out w' = exports_out w /\ results_buf w' = results_buf w /\
  stdout w' = stdout w /\
  (forall code, r = Err code -> code = WASMER_ERROR /\ last_error w' <> None).
Proof.
  revert namespaces w. induction imports as [|imp imports IH]; intros namespaces w H.
  - cbn in H. injection H as <- <-. repeat split; discriminate.
  - cbn -[from_utf8] in H.
    unfold import_export, update_last_error, bind, ret, undefined in H.
    destruct (from_utf8 (module_name imp)) as [mname|];
      [destruct (from_utf8 (import_name imp)) as [iname|]|].
    + destruct (import_binding (import_tag imp) (import_value imp)) as [e|]; [|discriminate].
      exact (IH _ _ H).
    + injection H as <- <-. cbn. repeat split; try congruence.
    + injection H as <- <-. cbn. repeat split; try congruence.
Qed.

(** C4: a failing [wasmer_instantiate] or [wasmer_instance_call] leaves
    the instance out-cell and the results buffer as they were (and
    [wasmer_instantiate] allocates nothing); a successful call whose export
    returns no value leaves the results buffer as it was. *)
Theorem instantiate_and_call_leave_outputs_on_error :
  (forall (wasm_bytes : option (list byte)) (imports : list wasmer_import_t) (w w' : World),
     wasmer_instantiate wasm_bytes imports w = Done WASMER_ERROR w' ->
     instance_out w' = instance_out w /\ heap w' = heap w /\ results_buf w' = results_buf w)
  /\ (forall (p : ptr) (name : option (list byte)) (params : option (list wasmer_value_t))
        (w w' : World),
     wasmer_instance_call p name params w = Done WASMER_ERROR w' ->
     results_buf w' = results_buf w /\ instance_out w' = instance_out w)
  /\ (forall (p : ptr) (s : list byte) (fname : string) (params : list wasmer_value_t)
        (i i' : Instance) (w : World),
     p <> 0 -> x00 ∉ s -> from_utf8 s = Some fname -> heap w !! p = Some (HInstance i) ->
     instance_call (reset_opcodetracer_last_location i) fname
       (map value_of_wasmer_value params) = (i', Ok []) ->
     exists w', wasmer_instance_call p (Some (s ++ [x00])) (Some params) w = Done WASMER_OK w'
       /\ results_buf w' = results_buf w).
Proof.
  split; [|split].
  - intros [bytes|] imports w w' H.
    + unfold wasmer_instantiate, bind at 1 in H.
      destruct (register_imports imports ∅ w) as [r w1| |] eqn:Hr; try discriminate.
      apply register_imports_frame in Hr as (Hh & _ & Ho & _ & Hb & _).
      unfold box_into_raw, write_instance_out, update_last_error, bind, ret in H.
      destruct r as [nss|code].
      * destruct (runtime_instantiate bytes _); [discriminate|].
        injection H as <-. cbn. auto.
      * injection H as _ <-. auto.
    + cbn in H. injection H as <-. cbn. auto.
  - exact wasmer_instance_call_error_frame.
  - intros p s fname params i i' w Hp Hs Hf Hi Hc.
    unfold_call_prefix Hp Hs Hf Hi.
    rewrite Hc. cbn -[report_last_opcode_location].
    match goal with
    | |- context [report_last_opcode_location ?inst ?w1] =>
        destruct (report_last_opcode_location_frame inst w1) as (w2 & H2 & F2);
        rewrite H2
    end.
    eexists. split; [reflexivity|].
    destruct F2 as (_ & _ & _ & _ & _ & F). rewrite F. reflexivity.
Qed.

(** On accepted imports the loop runs to the end, changes no state, and
    computes [register_one] round by round. *)
Lemma register_imports_valid (imports : list wasmer_import_t)
    (namespaces : gmap string Namespace) (w : World) :
  Forall import_valid imports ->
  register_imports imports namespaces w = Done (Ok (foldl register_one namespaces imports)) w.
Proof.
  revert namespaces. induction imports as [|imp imports IH]; intros namespaces Hv;
    [reflexivity|].
  apply Forall_cons in Hv as ([[m Hm] [[n Hn] [e He]]] & Hv).
  cbn -[from_utf8]. rewrite Hm, Hn.
  unfold import_export, bind. rewrite He. cbn.
  rewrite IH by exact Hv. unfold register_one. by rewrite Hm, Hn, He.
Qed.

Lemma register_imports_app (prefix rest : list wasmer_import_t)
    (namespaces : gmap string Namespace) (w : World) :
  Forall import_valid prefix ->
  register_imports (prefix ++ rest) namespaces w =
  register_imports rest (foldl register_one namespaces prefix) w.
Proof.
  revert namespaces. induction prefix as [|imp prefix IH]; intros namespaces Hv;
    [reflexivity|].
  apply Forall_cons in Hv as ([[m Hm] [[n Hn] [e He]]] & Hv).
  cbn -[from_utf8]. rewrite Hm, Hn.
  unfold import_export, bind. rewrite He. cbn.
  rewrite IH by exact Hv. unfold register_one. by rewrite Hm, Hn, He.
Qed.

Lemma lookup_default_empty (o : option Namespace) (n : string) :
  default ∅ o !! n = o ≫= (.!! n).
Proof. destruct o; reflexivity. Qed.

(** A round on another (module, import) pair keeps the binding of
    [(m, n)]. *)
Lemma register_one_other (namespaces : gmap string Namespace) (imp : wasmer_import_t)
    (m n : string) :
  from_utf8 (module_name imp) <> Some m \/ from_utf8 (import_name imp) <> Some n ->
  register_one namespaces imp !! m ≫= (.!! n) = namespaces !! m ≫= (.!! n).
Proof.
  intros Hne. unfold register_one.
  destruct (from_utf8 (module_name imp)) as [m'|] eqn:Hm; [|reflexivity].
  destruct (from_utf8 (import_name imp)) as [n'|] eqn:Hn; [|reflexivity].
  destruct (import_binding _ _) as [e|]; [|reflexivity].
  destruct (decide (m' = m)) as [->|Hm'].
  - destruct Hne as [Hne|Hne]; [congruence|].
    rewrite lookup_insert_eq. cbn. unfold Namespace_insert.
    rewrite lookup_insert_ne by congruence. apply lookup_default_empty.
  - by rewrite lookup_insert_ne.
Qed.

Lemma register_one_same (namespaces : gmap string Namespace) (imp : wasmer_import_t)
    (m n : string) (e : Export) :
  from_utf8 (module_name imp) = Some m -> from_utf8 (import_name imp) = Some n ->
  import_binding (import_tag imp) (import_value imp) = Some e ->
  register_one namespaces imp !! m ≫= (.!! n) = Some e.
Proof.
  intros Hm Hn He. unfold register_one. rewrite Hm, Hn, He.
  rewrite lookup_insert_eq. cbn. unfold Namespace_insert. by rewrite lookup_insert_eq.
Qed.

Lemma register_fold_other (suffix : list wasmer_import_t)
    (namespaces : gmap string Namespace) (m n : string) :
  Forall (fun imp => from_utf8 (module_name imp) <> Some m \/
                     from_utf8 (import_name imp) <> Some n) suffix ->
  foldl register_one namespaces suffix !! m ≫= (.!! n) = namespaces !! m ≫= (.!! n).
Proof.
  revert namespaces. induction suffix as [|imp suffix IH]; intros namespaces Hs;
    [reflexivity|].
  apply Forall_cons in Hs as [H1 Hs]. cbn.
  rewrite IH by exact Hs. by apply register_one_other.
Qed.

(** Registering the namespaces into the import object gives back the same
    map. *)
Lemma finalize_imports_id (namespaces : gmap string Namespace) :
  finalize_imports namespaces = namespaces.
Proof.
  unfold finalize_imports.
  assert (Hl : forall l : list (string * Namespace),
    foldr (fun '(mname, ns) io => ImportObject_register mname ns io) ∅ l =
    (list_to_map l : ImportObject)).
  { induction l as [|[k v] l IH]; [reflexivity|].
    rewrite list_to_map_cons, <- IH. reflexivity. }
  rewrite Hl. apply list_to_map_to_list.
Qed.

(** C9: on accepted imports, [wasmer_instantiate] builds namespaces (and
    registers them unchanged into the import object) in which the binding
    of an import name [n] of module [m] is the binding of the LAST import
    of the list with module name [m] and import name [n]: a later import
    with the same names overwrites the earlier one, and a namespace holds
    one binding per name. *)
Theorem register_imports_last_wins (imports : list wasmer_import_t) (w : World) :
  Forall import_valid imports ->
  exists namespaces : gmap string Namespace,
    register_imports imports ∅ w = Done (Ok namespaces) w
    /\ finalize_imports namespaces = namespaces
    /\ forall (m n : string) (prefix suffix : list wasmer_import_t)
              (imp : wasmer_import_t) (e : Export),
         imports = prefix ++ imp :: suffix ->
         from_utf8 (module_name imp) = Some m -> from_utf8 (import_name imp) = Some n ->
         import_binding (import_tag imp) (import_value imp) = Some e ->
         Forall (fun imp' => from_utf8 (module_name imp') <> Some m \/
                             from_utf8 (import_name imp') <> Some n) suffix ->
         namespaces !! m ≫= (.!! n) = Some e.
Proof.
  intros Hv. exists (foldl register_one ∅ imports).
  split; [by apply register_imports_valid|].
  split; [apply finalize_imports_id|].
  intros m n prefix suffix imp e -> Hm Hn He Hs.
  rewrite foldl_app. cbn.
  rewrite register_fold_other by exact Hs.
  by apply register_one_same.
Qed.

(** C8: when an import's module name or import name is not valid UTF-8
    (after accepted imports), [wasmer_instantiate] returns [WASMER_ERROR]
    with the conversion message in the error channel (or, for a null bytes
    pointer, the null-pointer message), allocates no instance and writes
    nothing else. *)
Theorem wasmer_instantiate_invalid_import_name (wasm_bytes : option (list byte))
    (prefix rest : list wasmer_import_t) (imp : wasmer_import_t) (w : World) :
  Forall import_valid prefix ->
  from_utf8 (module_name imp) = None \/ from_utf8 (import_name imp) = None ->
  wasmer_instantiate wasm_bytes (prefix ++ imp :: rest) w =
    Done WASMER_ERROR
      (mkWorld (Some (match wasm_bytes with
                      | None => "wasm bytes ptr is null"
                      | Some _ =>
                          match from_utf8 (module_name imp) with
                          | None => "error converting module name to string"
                          | Some _ => "error converting import_name to string"
                          end
                      end))
               (heap w) (next_addr w) (instance_out w) (exports_out w)
               (results_buf w) (stdout w)).
Proof.
  intros Hp Hbad. destruct wasm_bytes as [bytes|]; [|reflexivity].
  unfold wasmer_instantiate, bind at 1.
  rewrite register_imports_app by exact Hp.
  cbn -[from_utf8].
  destruct (from_utf8 (module_name imp)) as [mname|] eqn:Hm; [|reflexivity].
  destruct Hbad as [Hbad|Hbad]; [discriminate|]. rewrite Hbad. reflexivity.
Qed.


(** C2: when compilation and instantiation succeed,
    [wasmer_instantiate_with_options] boxes the instance with its points
    limit set to [gas_limit options], writes the box's address into the
    out-cell and returns [WASMER_OK]; when either stage fails it returns
    [WASMER_ERROR] having only stored a message: no instance is boxed and
    the out-cell is not written. *)
Theorem wasmer_instantiate_with_options_gas_limit (bytes : list byte)
    (options : CompilationOptions) (w : World) :
  (forall (m : Module) (i : Instance),
     compile_with (prepare_middleware_chain_generator true options) bytes = Ok m ->
     module_instantiate m GLOBAL_IMPORT_OBJECT = Ok i ->
     wasmer_instantiate_with_options (Some bytes) options w =
       Done WASMER_OK
         (mkWorld (last_error w)
            (<[next_addr w := HInstance (set_points_limit i (gas_limit options))]> (heap w))
            (next_addr w + 1) (next_addr w) (exports_out w) (results_buf w) (stdout w)))
  /\ ((exists e, compile_with (prepare_middleware_chain_generator true options) bytes = Err e)
      \/ (exists m e, compile_with (prepare_middleware_chain_generator true options) bytes = Ok m
                      /\ module_instantiate m GLOBAL_IMPORT_OBJECT = Err e) ->
     exists msg : string,
       wasmer_instantiate_with_options (Some bytes) options w =
         Done WASMER_ERROR
           (mkWorld (Some msg) (heap w) (next_addr w) (instance_out w) (exports_out w)
                    (results_buf w) (stdout w))).
Proof.
  split.
  - intros m i Hc Hi. unfold wasmer_instantiate_with_options.
    rewrite Hc, Hi. reflexivity.
  - intros [[e Hc] | (m & e & Hc & Hi)]; unfold wasmer_instantiate_with_options;
      rewrite Hc; [|rewrite Hi]; eexists; reflexivity.
Qed.

Lemma register_imports_total (imports : list wasmer_import_t)
    (namespaces : gmap string Namespace) (w : World) :
  Forall import_well_tagged imports ->
  exists r w', register_imports imports namespaces w = Done r w'.
Proof.
  revert namespaces w. induction imports as [|imp imports IH]; intros namespaces w Hv;
    [by eexists _, _|].
  apply Forall_cons in Hv as ([e He] & Hv).
  cbn -[from_utf8].
  destruct (from_utf8 (module_name imp)); [destruct (from_utf8 (import_name imp))|].
  - unfold import_export, bind. rewrite He. cbn. by apply IH.
  - by eexists _, _.
  - by eexists _, _.
Qed.

(** C5: with a null bytes pointer, or a zero-length buffer (which module
    parsing rejects), [wasmer_instantiate] (on imports whose unions hold
    the field their tag names) and [wasmer_instantiate_with_options]
    return [WASMER_ERROR] with a message in the error channel; no instance
    is boxed and the out-cell is not written. *)
Theorem instantiate_null_or_empty_bytes (wasm_bytes : option (list byte))
    (imports : list wasmer_import_t) (options : CompilationOptions) (w : World) :
  rejects_empty_bytes ->
  wasm_bytes = None \/ wasm_bytes = Some [] ->
  Forall import_well_tagged imports ->
  (exists msg : string,
     wasmer_instantiate wasm_bytes imports w =
       Done WASMER_ERROR (mkWorld (Some msg) (heap w) (next_addr w) (instance_out w)
                                  (exports_out w) (results_buf w) (stdout w)))
  /\ (exists msg : string,
     wasmer_instantiate_with_options wasm_bytes options w =
       Done WASMER_ERROR (mkWorld (Some msg) (heap w) (next_addr w) (instance_out w)
                                  (exports_out w) (results_buf w) (stdout w))).
Proof.
  intros [Hrt Hcw] Hb Hv.
  destruct Hb as [-> | ->]; [split; eexists; reflexivity|].
  split.
  - unfold wasmer_instantiate, bind at 1.
    destruct (register_imports_total imports ∅ w Hv) as (r & w1 & Hr).
    rewrite Hr.
    apply register_imports_frame in Hr as (Hh & Hn & Ho & He & Hb & Hs & Herr).
    destruct w1 as [le1 h1 n1 o1 e1 b1 s1]; cbn in *; subst.
    destruct r as [nss|code].
    + destruct (Hrt (finalize_imports nss)) as [err Herr'].
      unfold update_last_error, bind, ret. rewrite Herr'. eexists. reflexivity.
    + destruct (Herr code eq_refl) as [-> Hle].
      destruct le1 as [msg|]; [|congruence].
      exists msg. reflexivity.
  - destruct (Hcw (prepare_middleware_chain_generator true options)) as [err Herr].
    unfold wasmer_instantiate_with_options. rewrite Herr. eexists. reflexivity.
Qed.

(* ------------------------------------------------------------------ *)
(** ** The instance context and instance destruction *)

Lemma lift_deref_instance (p : ptr) (i : Instance) (cw : CWorld) :
  heap (world cw) !! p = Some (HInstance i) ->
  lift (deref_instance p) cw = CDone i (mkCWorld (world cw) (contexts cw)).
Proof. intros Hi. unfold lift, deref_instance. by rewrite Hi. Qed.

Lemma lift_deref_instance_none (p : ptr) (cw : CWorld) :
  heap (world cw) !! p = None -> lift (deref_instance p) cw = CUndefined (A := Instance).
Proof. intros Hi. unfold lift, deref_instance. by rewrite Hi. Qed.

(** Setting the data of an instance's context through the instance, then
    reading it through the context pointer [wasmer_instance_context_get]
    returns, gives back the data set. *)
Theorem wasmer_instance_context_data_roundtrip (p d : ptr) (i : Instance) (c : Ctx)
    (cw : CWorld) :
  p <> 0 -> heap (world cw) !! p = Some (HInstance i) ->
  instance_context i <> 0 -> contexts cw !! instance_context i = Some c ->
  exists cw', wasmer_instance_context_data_set p d cw = CDone tt cw'
    /\ wasmer_instance_context_get p cw' = CDone (instance_context i) cw'
    /\ wasmer_instance_context_data_get (instance_context i) cw' = CDone d cw'.
Proof.
  intros Hp Hi Hc0 Hc.
  unfold wasmer_instance_context_data_set. rewrite decide_False by exact Hp.
  unfold cbind at 1. rewrite (lift_deref_instance _ _ _ Hi). cbn.
  unfold cbind, deref_ctx at 1. cbn. rewrite decide_False by exact Hc0. rewrite Hc.
  eexists. split; [reflexivity|]. split.
  - unfold wasmer_instance_context_get. rewrite decide_False by exact Hp.
    unfold cbind, lift, deref_instance. cbn. rewrite Hi. reflexivity.
  - unfold wasmer_instance_context_data_get, deref_ctx, cbind, cret.
    rewrite !decide_False by exact Hc0. cbn. by rewrite lookup_insert_eq.
Qed.

(** [wasmer_instance_context_data_set] writes only the [data] field of
    the context of the instance it is given: the rest of the state, the
    other contexts and the rest of that context are left as they were; on
    a null instance it changes nothing. *)
Theorem wasmer_instance_context_data_set_frame (p d : ptr) (cw cw' : CWorld) :
  wasmer_instance_context_data_set p d cw = CDone tt cw' ->
  world cw' = world cw
  /\ ((p = 0 /\ contexts cw' = contexts cw)
      \/ exists i c, heap (world cw) !! p = Some (HInstance i)
           /\ contexts cw !! instance_context i = Some c
           /\ contexts cw' = <[instance_context i := mkCtx (ctx_internals c) d]> (contexts cw)).
Proof.
  unfold wasmer_instance_context_data_set.
  destruct (decide (p = 0)) as [->|Hp].
  - intros H. injection H as <-. split; [reflexivity|]. left. by split.
  - unfold cbind, lift, deref_instance.
    destruct (heap (world cw) !! p) as [[i|]|] eqn:Hi; try discriminate.
    unfold deref_ctx. cbn.
    destruct (decide (instance_context i = 0)); [discriminate|].
    destruct (contexts cw !! instance_context i) as [c|] eqn:Hc; [|discriminate].
    intros H. injection H as <-. split; [reflexivity|].
    right. exists i, c. by repeat split.
Qed.

(** Every function of the context API and [wasmer_instance_destroy]
    accepts a null pointer without touching the state ([context_get] and
    [context_data_get] return null), except
    [wasmer_instance_context_memory], which dereferences it. *)
Theorem context_api_null_pointer (cw : CWorld) :
  wasmer_instance_context_get 0 cw = CDone 0 cw
  /\ (forall d, wasmer_instance_context_data_set 0 d cw = CDone tt cw)
  /\ wasmer_instance_context_data_get 0 cw = CDone 0 cw
  /\ wasmer_instance_destroy 0 cw = CDone tt cw
  /\ (forall memory_idx, wasmer_instance_context_memory 0 memory_idx cw = CUndefined).
Proof. repeat split; reflexivity. Qed.

(** [wasmer_instance_destroy] on a live instance frees its box and its
    context; afterwards every use of the freed pointer (destroying it
    again, getting its context, setting its data, listing its exports,
    calling it) and every use of the freed context is undefined. *)
Theorem wasmer_instance_destroy_use_after_free (p : ptr) (i : Instance) (cw : CWorld) :
  p <> 0 -> heap (world cw) !! p = Some (HInstance i) ->
  exists cw', wasmer_instance_destroy p cw = CDone tt cw'
    /\ heap (world cw') = delete p (heap (world cw))
    /\ contexts cw' = delete (instance_context i) (contexts cw)
    /\ wasmer_instance_destroy p cw' = CUndefined
    /\ wasmer_instance_context_get p cw' = CUndefined
    /\ (forall d, wasmer_instance_context_data_set p d cw' = CUndefined)
    /\ (instance_context i <> 0 ->
        wasmer_instance_context_data_get (instance_context i) cw' = CUndefined)
    /\ (forall memory_idx,
          wasmer_instance_context_memory (instance_context i) memory_idx cw' = CUndefined)
    /\ wasmer_instance_exports p (world cw') = Undefined
    /\ (forall (s : list byte) (fname : string) (params : list wasmer_value_t),
          x00 ∉ s -> from_utf8 s = Some fname ->
          wasmer_instance_call p (Some (s ++ [x00])) (Some params) (world cw') = Undefined).
Proof.
  intros Hp Hi.
  unfold wasmer_instance_destroy at 1. rewrite decide_False by exact Hp.
  unfold cbind at 1. rewrite (lift_deref_instance _ _ _ Hi). cbn.
  eexists. split; [reflexivity|].
  set (cw' := mkCWorld _ _).
  assert (Hn : heap (world cw') !! p = None) by apply lookup_delete_eq.
  assert (Hc : contexts cw' !! instance_context i = None) by apply lookup_delete_eq.
  split; [reflexivity|]. split; [reflexivity|].
  split; [|split; [|split; [|split; [|split; [|split]]]]].
  - unfold wasmer_instance_destroy. rewrite decide_False by exact Hp.
    unfold cbind. by rewrite lift_deref_instance_none.
  - unfold wasmer_instance_context_get. rewrite decide_False by exact Hp.
    unfold cbind. by rewrite lift_deref_instance_none.
  - intros d. unfold wasmer_instance_context_data_set. rewrite decide_False by exact Hp.
    unfold cbind. by rewrite lift_deref_instance_none.
  - intros Hc0. unfold wasmer_instance_context_data_get, cbind, deref_ctx.
    rewrite !decide_False by exact Hc0. by rewrite Hc.
  - intros idx. unfold wasmer_instance_context_memory, cbind, deref_ctx.
    destruct (decide _); [reflexivity|]. by rewrite Hc.
  - unfold wasmer_instance_exports. rewrite decide_False by exact Hp.
    unfold bind, deref_instance. by rewrite Hn.
  - intros s fname params Hs Hf.
    unfold wasmer_instance_call. rewrite decide_False by exact Hp.
    unfold cstr_from_ptr, to_str_unwrap, deref_instance, bind, ret.
    rewrite cstr_bytes_app by exact Hs. rewrite Hf. by rewrite Hn.
Qed.

(** A snapshot taken with [wasmer_instance_exports] outlives the
    instance: destroying the instance afterwards frees the instance only,
    and the snapshot box stays readable with back-pointers to the freed
    instance. *)
Theorem wasmer_instance_exports_outlive_destroy (p : ptr) (i : Instance) (cw : CWorld) :
  heap_wf (world cw) -> p <> 0 -> heap (world cw) !! p = Some (HInstance i) ->
  exists w1 cw2, wasmer_instance_exports p (world cw) = Done tt w1
    /\ wasmer_instance_destroy p (mkCWorld w1 (contexts cw)) = CDone tt cw2
    /\ heap (world cw2) !! p = None
    /\ exists xs : NamedExports,
         heap (world cw2) !! exports_out w1 = Some (HExports xs)
         /\ map ne_name xs = map fst (instance_exports i)
         /\ Forall (fun ne => ne_instance ne = p) xs.
Proof.
  intros (Hpos & H0 & Hfree) Hp Hi.
  assert (Hne : next_addr (world cw) <> p).
  { intros E. subst p. specialize (Hfree (next_addr (world cw)) ltac:(lia)).
    unfold ptr in *. rewrite Hfree in Hi. discriminate. }
  unfold wasmer_instance_exports. rewrite decide_False by exact Hp.
  unfold bind at 1, deref_instance. rewrite Hi.
  unfold bind, box_into_raw, write_exports_out.
  eexists _, _. split; [reflexivity|].
  unfold wasmer_instance_destroy. rewrite decide_False by exact Hp.
  unfold cbind at 1, lift at 1, deref_instance. cbn.
  rewrite lookup_insert_ne by congruence. rewrite Hi.
  split; [reflexivity|]. cbn. split; [apply lookup_delete_eq|].
  eexists. rewrite lookup_delete_ne by congruence. rewrite lookup_insert_eq.
  split; [reflexivity|].
  rewrite push_named_exports_app. cbn.
  clear. induction (instance_exports i) as [|[n e] es IH]; cbn; [split; constructor|].
  destruct IH as [IH1 IH2]. split; [by f_equal|by constructor].
Qed.

(** [wasmer_instance_call] checks its three pointers for null, in the
    order instance, name, params, before reading through any of them: a
    null one gives [WASMER_ERROR] with its message and no other change,
    even when the instance pointer is dangling. *)
Theorem wasmer_instance_call_null_arguments (p : ptr) (name : option (list byte))
    (mem : list byte) (params : option (list wasmer_value_t)) (w : World) :
  wasmer_instance_call 0 name params w =
    Done WASMER_ERROR (mkWorld (Some "instance ptr is null") (heap w) (next_addr w)
                         (instance_out w) (exports_out w) (results_buf w) (stdout w))
  /\ (p <> 0 -> wasmer_instance_call p None params w =
    Done WASMER_ERROR (mkWorld (Some "name ptr is null") (heap w) (next_addr w)
                         (instance_out w) (exports_out w) (results_buf w) (stdout w)))
  /\ (p <> 0 -> wasmer_instance_call p (Some mem) None w =
    Done WASMER_ERROR (mkWorld (Some "params ptr is null") (heap w) (next_addr w)
                         (instance_out w) (exports_out w) (results_buf w) (stdout w))).
Proof.
  split; [reflexivity|]. split; intros Hp;
    unfold wasmer_instance_call; rewrite decide_False by exact Hp; reflexivity.
Qed.

(* ------------------------------------------------------------------ *)
(** ** What a call changes, and the allocation invariant *)




Lemma wasmer_instantiate_cases (wasm_bytes : option (list byte))
    (imports : list wasmer_import_t) (w w' : World) (r : wasmer_result_t) :
  wasmer_instantiate wasm_bytes imports w = Done r w' ->
  (r = WASMER_ERROR /\ heap w' = heap w /\ next_addr w' = next_addr w /\
   instance_out w' = instance_out w)
  \/ (r = WASMER_OK /\ exists i, w' = mkWorld (last_error w') (<[next_addr w := HInstance i]> (heap w))
        (next_addr w + 1) (next_addr w) (exports_out w) (results_buf w) (stdout w)).
Proof.
  destruct wasm_bytes as [bytes|].
  - unfold wasmer_instantiate, bind at 1.
    destruct (register_imports imports ∅ w) as [r1 w1| |] eqn:Hr; try discriminate.
    apply register_imports_frame in Hr as (Hh & Hn & Ho & He & Hb & Hs & Herr).
    unfold box_into_raw, write_instance_out, update_last_error, bind, ret.
    destruct r1 as [nss|code].
    + destruct (runtime_instantiate bytes _) as [i|e]; intros H; injection H as <- <-.
      * right. split; [reflexivity|]. exists i. cbn. by rewrite Hh, Hn, He, Hb, Hs.
      * left. cbn. by repeat split.
    + intros H. injection H as <- <-. left. by destruct (Herr code eq_refl) as [-> _].
  - intros H. injection H as <- <-. left. by repeat split.
Qed.

Lemma wasmer_instantiate_with_options_cases (wasm_bytes : option (list byte))
    (options : CompilationOptions) (w w' : World) (r : wasmer_result_t) :
  wasmer_instantiate_with_options wasm_bytes options w = Done r w' ->
  (r = WASMER_ERROR /\ heap w' = heap w /\ next_addr w' = next_addr w /\
   instance_out w' = instance_out w)
  \/ (r = WASMER_OK /\ exists i, w' = mkWorld (last_error w') (<[next_addr w := HInstance i]> (heap w))
        (next_addr w + 1) (next_addr w) (exports_out w) (results_buf w) (stdout w)).
Proof.
  unfold wasmer_instantiate_with_options, box_into_raw, write_instance_out,
    update_last_error, bind, ret.
  destruct wasm_bytes as [bytes|].
  - destruct (compile_with _ bytes) as [m|e]; [destruct (module_instantiate m _) as [i|e]|];
      intros H; injection H as <- <-.
    + right. split; [reflexivity|]. by eexists.
    + left. by repeat split.
    + left. by repeat split.
  - intros H. injection H as <- <-. left. by repeat split.
Qed.

Lemma wasmer_instance_exports_cases (p : ptr) (w w' : World) :
  wasmer_instance_exports p w = Done tt w' ->
  (p = 0 /\ w' = w)
  \/ (exists i, heap w !! p = Some (HInstance i) /\
        w' = mkWorld (last_error w)
               (<[next_addr w := HExports (push_named_exports p [] (instance_exports i))]> (heap w))
               (next_addr w + 1) (instance_out w) (next_addr w) (results_buf w) (stdout w)).
Proof.
  unfold wasmer_instance_exports.
  destruct (decide (p = 0)) as [->|Hp].
  - intros H. injection H as <-. by left.
  - unfold bind, deref_instance, box_into_raw, write_exports_out.
    destruct (heap w !! p) as [[i|]|] eqn:Hi; try discriminate.
    intros H. injection H as <-. right. by exists i.
Qed.


(** Under the allocation invariant, the boxes returned by a successful
    [wasmer_instantiate] or [wasmer_instantiate_with_options] (in
    [*instance]) and by [wasmer_instance_exports] (in [*exports]) are
    non-null addresses no live object had, and every object boxed before
    is still there. *)
Theorem entry_points_return_fresh_boxes (w w' : World) :
  heap_wf w ->
  (forall wasm_bytes imports,
     wasmer_instantiate wasm_bytes imports w = Done WASMER_OK w' ->
     instance_out w' <> 0 /\ heap w !! instance_out w' = None /\
     exists i, heap w' = <[instance_out w' := HInstance i]> (heap w))
  /\ (forall wasm_bytes options,
     wasmer_instantiate_with_options wasm_bytes options w = Done WASMER_OK w' ->
     instance_out w' <> 0 /\ heap w !! instance_out w' = None /\
     exists i, heap w' = <[instance_out w' := HInstance i]> (heap w))
  /\ (forall p, p <> 0 ->
     wasmer_instance_exports p w = Done tt w' ->
     exports_out w' <> 0 /\ exports_out w' <> p /\ heap w !! exports_out w' = None /\
     exists xs, heap w' = <[exports_out w' := HExports xs]> (heap w)).
Proof.
  intros (Hpos & H0 & Hfree).
  assert (Hn : heap w !! next_addr w = None) by (apply Hfree; lia).
  split; [|split].
  - intros b imps H.
    apply wasmer_instantiate_cases in H as [(? & _) | (_ & i & ->)]; [discriminate|].
    cbn. split; [lia|]. split; [exact Hn|]. by exists i.
  - intros b o H.
    apply wasmer_instantiate_with_options_cases in H as [(? & _) | (_ & i & ->)];
      [discriminate|].
    cbn. split; [lia|]. split; [exact Hn|]. by exists i.
  - intros p Hp H.
    apply wasmer_instance_exports_cases in H as [[? _] | (i & Hi & ->)]; [congruence|].
    cbn. split; [lia|]. split; [intros E; unfold ptr in *; rewrite E in Hn; congruence|].
    split; [exact Hn|]. by eexists.
Qed.

(* ------------------------------------------------------------------ *)
(** ** The results of a call and the opcode-trace report *)

Lemma print_imports_out (i : nat) (names : list string) (w : World) :
  print_imports i names w =
    Done tt (mkWorld (last_error w) (heap w) (next_addr w) (instance_out w) (exports_out w)
               (results_buf w)
               (stdout w ++ zip_with LImport (seq i (length names)) names)).
Proof.
  revert i w. induction names as [|n names IH]; intros i w; cbn.
  - rewrite app_nil_r. by destruct w.
  - unfold bind. rewrite IH. cbn. by rewrite <- app_assoc.
Qed.

Lemma print_exports_out (es : list (string * ExportIndex)) (w : World) :
  print_exports es w =
    Done tt (mkWorld (last_error w) (heap w) (next_addr w) (instance_out w) (exports_out w)
               (results_buf w) (stdout w ++ map (fun '(k, v) => LExport v k) es)).
Proof.
  revert w. induction es as [|[k v] es IH]; intros w; cbn.
  - rewrite app_nil_r. by destruct w.
  - unfold bind. rewrite IH. cbn. by rewrite <- app_assoc.
Qed.

Lemma report_last_opcode_location_out (inst : Instance) (w : World) :
  report_last_opcode_location inst w =
    Done tt (mkWorld (last_error w) (heap w) (next_addr w) (instance_out w) (exports_out w)
               (results_buf w) (stdout w ++ opcode_report_lines inst)).
Proof.
  unfold report_last_opcode_location, opcode_report_lines.
  destruct (decide _).
  - unfold bind. rewrite print_imports_out. cbn. rewrite print_exports_out.
    unfold println. cbn. by rewrite <- !app_assoc.
  - rewrite app_nil_r. by destruct w.
Qed.

(** A call whose export returns values, the first of a supported kind,
    into a non-empty results buffer returns [WASMER_OK]: it writes the
    converted first value into [results[0]] and leaves the other entries
    of the buffer as they were (further values are dropped), keeps the
    instance as the export left it, and stores no error message. *)
Theorem wasmer_instance_call_ok_writes_first_result
    (p : ptr) (s : list byte) (fname : string) (params : list wasmer_value_t)
    (i i' : Instance) (v : Value.t) (vs : list Value.t) (r : wasmer_value_t)
    (rs : list wasmer_value_t) (w : World) :
  p <> 0 -> x00 ∉ s -> from_utf8 s = Some fname -> heap w !! p = Some (HInstance i) ->
  instance_call (reset_opcodetracer_last_location i) fname
    (map value_of_wasmer_value params) = (i', Ok (v :: vs)) ->
  (forall x, v <> Value.V128 x) -> results_buf w = r :: rs ->
  exists w' rv,
    wasmer_instance_call p (Some (s ++ [x00])) (Some params) w = Done WASMER_OK w'
    /\ marshal_result v w = Done rv w
    /\ results_buf w' = rv :: rs
    /\ heap w' = <[p := HInstance i']> (heap w)
    /\ last_error w' = last_error w.
Proof.
  intros Hp Hs Hf Hi Hc Hv Hr.
  unfold_call_prefix Hp Hs Hf Hi.
  rewrite Hc. cbn -[report_last_opcode_location].
  destruct v as [x|x|x|x|x]; try (exfalso; by apply (Hv x));
    cbn -[report_last_opcode_location]; rewrite Hr; cbn -[report_last_opcode_location];
    rewrite report_last_opcode_location_out;
    (eexists _, _; split; [reflexivity|]; split; [reflexivity|]; cbn;
     split; [reflexivity|]; split; [by rewrite insert_insert_eq|reflexivity]).
Qed.

(** A call whose export fails returns [WASMER_ERROR] with the runtime
    error's text in the error channel, keeps the instance as the failed
    call left it, and leaves the results buffer as it was. *)
Theorem wasmer_instance_call_error_message
    (p : ptr) (s : list byte) (fname : string) (params : list wasmer_value_t)
    (i i' : Instance) (err : RuntimeError) (w : World) :
  p <> 0 -> x00 ∉ s -> from_utf8 s = Some fname -> heap w !! p = Some (HInstance i) ->
  instance_call (reset_opcodetracer_last_location i) fname
    (map value_of_wasmer_value params) = (i', Err err) ->
  exists w',
    wasmer_instance_call p (Some (s ++ [x00])) (Some params) w = Done WASMER_ERROR w'
    /\ last_error w' = Some (error_to_string err)
    /\ heap w' = <[p := HInstance i']> (heap w)
    /\ results_buf w' = results_buf w.
Proof.
  intros Hp Hs Hf Hi Hc.
  unfold_call_prefix Hp Hs Hf Hi.
  rewrite Hc. cbn -[report_last_opcode_location].
  rewrite report_last_opcode_location_out.
  eexists. split; [reflexivity|]. cbn.
  split; [reflexivity|]. split; [by rewrite insert_insert_eq|reflexivity].
Qed.

(** Whatever the export returns, a call that returns prints exactly the
    opcode-trace report of the instance as the call left it: the module's
    imports, its exports and the last location when the tracer (reset
    before the call) recorded a location, nothing otherwise. *)
Theorem wasmer_instance_call_opcode_report
    (p : ptr) (s : list byte) (fname : string) (params : list wasmer_value_t)
    (i i' : Instance) (res : result (list Value.t) RuntimeError) (w w' : World)
    (code : wasmer_result_t) :
  p <> 0 -> x00 ∉ s -> from_utf8 s = Some fname -> heap w !! p = Some (HInstance i) ->
  instance_call (reset_opcodetracer_last_location i) fname
    (map value_of_wasmer_value params) = (i', res) ->
  wasmer_instance_call p (Some (s ++ [x00])) (Some params) w = Done code w' ->
  stdout w' = stdout w ++ opcode_report_lines i'.
Proof.
  intros Hp Hs Hf Hi Hc. revert w'.
  unfold_call_prefix Hp Hs Hf Hi.
  rewrite Hc. cbn -[report_last_opcode_location].
  intros w'.
  destruct res as [[|v vs]|err]; cbn -[report_last_opcode_location];
    [| destruct v; cbn -[report_last_opcode_location]; try discriminate;
       destruct (results_buf w); cbn -[report_last_opcode_location]; try discriminate
    |];
    rewrite report_last_opcode_location_out; intros H; by injection H as _ <-.
Qed.

(* ------------------------------------------------------------------ *)
(** ** Reading the function name *)




(* ------------------------------------------------------------------ *)
(** ** The namespaces built from the imports *)

Lemma register_one_is_Some (namespaces : gmap string Namespace) (imp : wasmer_import_t)
    (m n : string) :
  import_valid imp ->
  (is_Some (register_one namespaces imp !! m ≫= (.!! n)) <->
   is_Some (namespaces !! m ≫= (.!! n)) \/
   (from_utf8 (module_name imp) = Some m /\ from_utf8 (import_name imp) = Some n))
  /\ (is_Some (register_one namespaces imp !! m) <->
      is_Some (namespaces !! m) \/ from_utf8 (module_name imp) = Some m).
Proof.
  intros ([m' Hm] & [n' Hn] & [e He]).
  rewrite Hm, Hn. split.
  - destruct (decide (m' = m /\ n' = n)) as [[-> ->]|Hne].
    + rewrite (register_one_same _ _ m n e) by assumption.
      split; [intros _; by right|intros _; by eexists].
    + rewrite register_one_other.
      * split; [by left|]. intros [H|[H1 H2]]; [exact H|].
        exfalso. apply Hne. split; congruence.
      * destruct (decide (m' = m)) as [->|Hm'];
          [right; intros E; apply Hne; split; congruence | left; congruence].
  - unfold register_one. rewrite Hm, Hn, He.
    destruct (decide (m' = m)) as [->|Hm'].
    + rewrite lookup_insert_eq. split; [intros _; by right|intros _; by eexists].
    + rewrite lookup_insert_ne by exact Hm'.
      split; [by left|]. intros [H|H]; [exact H|congruence].
Qed.

Lemma register_fold_is_Some (imports : list wasmer_import_t)
    (namespaces : gmap string Namespace) (m n : string) :
  Forall import_valid imports ->
  (is_Some (foldl register_one namespaces imports !! m ≫= (.!! n)) <->
   is_Some (namespaces !! m ≫= (.!! n)) \/
   Exists (fun imp => from_utf8 (module_name imp) = Some m /\
                      from_utf8 (import_name imp) = Some n) imports)
  /\ (is_Some (foldl register_one namespaces imports !! m) <->
      is_Some (namespaces !! m) \/
      Exists (fun imp => from_utf8 (module_name imp) = Some m) imports).
Proof.
  revert namespaces. induction imports as [|imp imports IH]; intros namespaces Hv; cbn.
  - rewrite !Exists_nil. tauto.
  - apply Forall_cons in Hv as [H1 Hv].
    destruct (IH (register_one namespaces imp) Hv) as [IH1 IH2].
    destruct (register_one_is_Some namespaces imp m n H1) as [R1 R2].
    rewrite IH1, IH2, R1, R2, !Exists_cons. tauto.
Qed.

(** On accepted imports, the namespaces [wasmer_instantiate] registers
    hold a binding for exactly the (module name, import name) pairs of the
    imports, and a namespace for exactly their module names: no binding
    is lost or made up, and no namespace is empty. *)
Theorem register_imports_bindings (imports : list wasmer_import_t) (w : World) :
  Forall import_valid imports ->
  exists namespaces : gmap string Namespace,
    register_imports imports ∅ w = Done (Ok namespaces) w
    /\ (forall m n, is_Some (namespaces !! m ≫= (.!! n)) <->
          Exists (fun imp => from_utf8 (module_name imp) = Some m /\
                             from_utf8 (import_name imp) = Some n) imports)
    /\ (forall m, is_Some (namespaces !! m) <->
          Exists (fun imp => from_utf8 (module_name imp) = Some m) imports)
    /\ (forall m ns, namespaces !! m = Some ns -> ns <> ∅).
Proof.
  intros Hv. exists (foldl register_one ∅ imports).
  split; [by apply register_imports_valid|].
  assert (H1 : forall m n, is_Some (foldl register_one ∅ imports !! m ≫= (.!! n)) <->
          Exists (fun imp => from_utf8 (module_name imp) = Some m /\
                             from_utf8 (import_name imp) = Some n) imports).
  { intros m n. rewrite (proj1 (register_fold_is_Some imports ∅ m n Hv)).
    rewrite lookup_empty. cbn. split; [intros [[? H]|H]; [discriminate|exact H]|by right]. }
  assert (H2 : forall m, is_Some (foldl register_one ∅ imports !! m) <->
          Exists (fun imp => from_utf8 (module_name imp) = Some m) imports).
  { intros m. rewrite (proj2 (register_fold_is_Some imports ∅ m "" Hv)).
    rewrite lookup_empty. split; [intros [[? H]|H]; [discriminate|exact H]|by right]. }
  split; [exact H1|]. split; [exact H2|].
  intros m ns Hns ->.
  assert (Hex : Exists (fun imp => from_utf8 (module_name imp) = Some m) imports)
    by (apply H2; by eexists).
  apply Exists_exists in Hex as (imp & Himp & Hm).
  rewrite Forall_forall in Hv. destruct (Hv imp Himp) as (_ & [n Hn] & _).
  assert (Hb : is_Some (foldl register_one ∅ imports !! m ≫= (.!! n))).
  { apply H1. apply Exists_exists. by exists imp. }
  rewrite Hns in Hb. cbn in Hb. rewrite lookup_empty in Hb. by destruct Hb.
Qed.

End Runtime.

(* ------------------------------------------------------------------ *)
(** ** The middleware chain generator *)

(** C1, as stated, does not hold in every build: in a build without the
    [metering] feature, a configuration with [metering = true] gets no
    metering pass, so the chain is not the one of the spec. *)
Lemma prepare_middleware_chain_generator_no_feature :
  ~ (forall (feature_metering : bool) (options : CompilationOptions),
       prepare_middleware_chain_generator feature_metering options tt = spec_chain options).
Proof.
  intros H.
  specialize (H false {| gas_limit := 100; unmetered_locals := 0; opcode_trace := false;
                         metering := true; runtime_breakpoints := false |}).
  discriminate H.
Qed.

(** C1 (amended): every call of the generator builds the same chain from
    scratch: the metering pass when the flag is set and the crate has the
    [metering] feature, then the breakpoint pass when its flag is set,
    then the tracing pass when its flag is set. With the feature (the
    build of [wasmer_instantiate_with_options]) that is exactly the chain
    of the spec, and with all three flags false it is empty. *)
Theorem prepare_middleware_chain_generator_chain
    (feature_metering : bool) (options : CompilationOptions) (n : nat) :
  invoke_generator (prepare_middleware_chain_generator feature_metering options) n =
    repeat ((if feature_metering && metering options
             then [Metering (unmetered_locals options)] else []) ++
            (if runtime_breakpoints options then [RuntimeBreakpointHandler] else []) ++
            (if opcode_trace options then [OpcodeTracer] else [])) n
  /\ prepare_middleware_chain_generator true options tt = spec_chain options
  /\ (metering options = false -> runtime_breakpoints options = false ->
      opcode_trace options = false ->
      prepare_middleware_chain_generator feature_metering options tt = []).
Proof.
  split; [|split].
  - unfold invoke_generator. rewrite <- (length_seq n 0) at 2.
    generalize (seq 0 n) as l. intros l. induction l as [|x l IH]; [reflexivity|].
    simpl. rewrite IH. f_equal.
    unfold prepare_middleware_chain_generator, chain_push.
    destruct feature_metering, (metering options), (runtime_breakpoints options),
      (opcode_trace options); reflexivity.
  - unfold prepare_middleware_chain_generator, spec_chain, chain_push.
    destruct (metering options), (runtime_breakpoints options),
      (opcode_trace options); reflexivity.
  - intros Hm Hb Ht. unfold prepare_middleware_chain_generator.
    by rewrite Hm, Hb, Ht.
Qed.

(* ------------------------------------------------------------------ *)
(** ** The theorems on the concrete runtime *)

Abbreviation toy_world h b :=
  (mkWorld toy_instance N None h 2 0 0 b []) (only parsing).

Abbreviation toy_instance_call :=
  (wasmer_instance_call toy_instance string N toy_error_to_string toy_call
     toy_value_of_wasmer_value (fun i => i) (fun _ => 0) (fun _ => []) (fun _ => []))
  (only parsing).

Abbreviation toy_instantiate :=
  (wasmer_instantiate toy_instance string N toy_error_to_string toy_runtime_instantiate)
  (only parsing).

Lemma not_in_byte_list (b : byte) (l : list byte) :
  forallb (fun c => negb (Byte.eqb c b)) l = true -> b ∉ l.
Proof.
  induction l as [|c l IH]; cbn; intros H Hin.
  - by apply not_elem_of_nil in Hin.
  - apply andb_prop in H as [Hc Hl].
    apply elem_of_cons in Hin as [->|Hin].
    + by rewrite Byte.byte_dec_lb in Hc.
    + by apply IH.
Qed.

Lemma wasmer_instance_exports_snapshot_witness :
  (1 : ptr) <> 0 /\
  heap toy_instance N (toy_world {[1 := HInstance toy_instance toy_exports]} [])
    !! 1 = Some (HInstance toy_instance toy_exports) /\
  exists xs : NamedExports,
    map ne_name xs = ["sum"; "memory"] /\ Forall (fun ne => ne_instance ne = 1) xs.
Proof.
  split; [discriminate|]. split; [reflexivity|].
  destruct (wasmer_instance_exports_snapshot toy_instance N (fun i => i) 1 toy_exports
              (toy_world {[1 := HInstance toy_instance toy_exports]} []))
    as (xs & _ & _ & Hn & _ & Hp); [discriminate | reflexivity |].
  exists xs. split; [exact Hn | exact Hp].
Defined.

Lemma wasmer_instance_call_invalid_utf8_name_panics_witness :
  (1 : ptr) <> 0 /\ (x00 ∉ [xff]) /\ run_utf8_validation [xff] = false /\
  toy_instance_call 1 (Some [xff; x00]) (Some []) (toy_world ∅ []) =
    Panic toy_instance N wasmer_result_t
      "called `Result::unwrap()` on an `Err` value: Utf8Error".
Proof.
  split; [discriminate|]. split; [apply not_in_byte_list; reflexivity|].
  split; [reflexivity|].
  apply (wasmer_instance_call_invalid_utf8_name_panics toy_instance string N
           toy_error_to_string toy_call toy_value_of_wasmer_value (fun i => i)
           (fun _ => 0) (fun _ => []) (fun _ => []) 1 [xff] [] (toy_world ∅ []));
    [discriminate | apply not_in_byte_list; reflexivity | reflexivity].
Defined.

Lemma wasmer_instance_call_first_result_witness :
  (1 : ptr) <> 0 /\ (x00 ∉ [x73; x75; x6d]) /\ from_utf8 [x73; x75; x6d] = Some "sum" /\
  results_buf toy_instance N (toy_world {[1 := HInstance toy_instance toy_exports]} []) = [] /\
  toy_instance_call 1 (Some [x73; x75; x6d; x00]) (Some [])
    (toy_world {[1 := HInstance toy_instance toy_exports]} []) =
    Panic toy_instance N wasmer_result_t
      "index out of bounds: the len is 0 but the index is 0".
Proof.
  split; [discriminate|]. split; [apply not_in_byte_list; reflexivity|].
  split; [reflexivity|]. split; [reflexivity|].
  destruct (wasmer_instance_call_first_result toy_instance string N
              toy_error_to_string toy_call toy_value_of_wasmer_value (fun i => i)
              (fun _ => 0) (fun _ => []) (fun _ => []) 1 [x73; x75; x6d] "sum" []
              toy_exports toy_exports (Value.I32 7) []
              (toy_world {[1 := HInstance toy_instance toy_exports]} []))
    as (_ & H & _);
    [discriminate | apply not_in_byte_list; reflexivity | reflexivity | reflexivity
    | reflexivity |].
  apply H; [intros x; discriminate | reflexivity].
Defined.

Lemma instantiate_null_or_empty_bytes_witness :
  rejects_empty_bytes toy_instance unit string toy_runtime_instantiate toy_compile_with /\
  (exists (msg : string) (w' : World toy_instance N),
     toy_instantiate (Some []) [] (toy_world ∅ []) = Done toy_instance N wasmer_result_t WASMER_ERROR w'
     /\ last_error toy_instance N w' = Some msg).
Proof.
  assert (Hr : rejects_empty_bytes toy_instance unit string toy_runtime_instantiate
                 toy_compile_with).
  { split; intros; eexists; reflexivity. }
  split; [exact Hr|].
  destruct (instantiate_null_or_empty_bytes toy_instance unit string N toy_error_to_string
              toy_runtime_instantiate toy_compile_with toy_module_instantiate ∅ (fun i _ => i)
              (Some []) []
              {| gas_limit := 10; unmetered_locals := 0; opcode_trace := false;
                 metering := true; runtime_breakpoints := false |}
              (toy_world ∅ []))
    as [[msg H] _]; [exact Hr | right; reflexivity | constructor |].
  exists msg. eexists. split; [exact H | reflexivity].
Defined.

Lemma wasmer_instantiate_invalid_import_name_witness :
  Forall import_valid [env_import 1] /\
  from_utf8 [xff] = None /\
  exists w' : World toy_instance N,
    toy_instantiate (Some [x00]) [env_import 1;
      {| module_name := [xff]; import_name := [x66];
         import_tag := WASM_FUNCTION; import_value := IV_func (Export_Function 2) |}]
      (toy_world ∅ []) = Done toy_instance N wasmer_result_t WASMER_ERROR w'
    /\ last_error toy_instance N w' = Some "error converting module name to string".
Proof.
  assert (Hv : Forall import_valid [env_import 1]).
  { constructor; [|constructor]. split; [eexists; reflexivity|].
    split; eexists; reflexivity. }
  split; [exact Hv|]. split; [reflexivity|].
  eexists. split.
  - apply (wasmer_instantiate_invalid_import_name toy_instance string N toy_error_to_string
             toy_runtime_instantiate (Some [x00]) [env_import 1] []
             {| module_name := [xff]; import_name := [x66];
                import_tag := WASM_FUNCTION; import_value := IV_func (Export_Function 2) |}
             (toy_world ∅ [])); [exact Hv | left; reflexivity].
  - reflexivity.
Defined.

Lemma register_imports_last_wins_witness :
  Forall import_valid [env_import 1; env_import 2] /\
  exists namespaces : gmap string Namespace,
    register_imports toy_instance N [env_import 1; env_import 2] ∅ (toy_world ∅ []) =
      Done toy_instance N _ (Ok namespaces) (toy_world ∅ [])
    /\ namespaces !! "env" ≫= (.!! "f") = Some (Export_Function 2).
Proof.
  assert (Hv : Forall import_valid [env_import 1; env_import 2]).
  { repeat constructor; try (eexists; reflexivity). }
  split; [exact Hv|].
  destruct (register_imports_last_wins toy_instance N [env_import 1; env_import 2]
              (toy_world ∅ []) Hv) as (nss & Hr & _ & Hl).
  exists nss. split; [exact Hr|].
  apply (Hl "env" "f" [env_import 1] [] (env_import 2) (Export_Function 2));
    [reflexivity | reflexivity | reflexivity | reflexivity | constructor].
Defined.

Abbreviation toy_heap1 := ({[1 := HInstance toy_instance toy_exports]} : gmap N _)
  (only parsing).

(** The instance context of the concrete runtime lives at address [5]. *)
Abbreviation toy_cworld h :=
  (mkCWorld toy_instance N unit (toy_world h []) {[5 := mkCtx unit tt 0]}) (only parsing).

Lemma wasmer_instance_context_data_roundtrip_witness :
  (1 : ptr) <> 0 /\ (5 : ptr) <> 0 /\
  exists cw',
    wasmer_instance_context_data_set _ _ _ (fun _ : toy_instance => 5) 1 42
      (toy_cworld toy_heap1) = CDone _ _ _ _ tt cw'
    /\ wasmer_instance_context_data_get _ _ _ 5 cw' = CDone _ _ _ _ 42 cw'.
Proof.
  split; [discriminate|]. split; [discriminate|].
  destruct (wasmer_instance_context_data_roundtrip toy_instance N unit (fun _ => 5) 1 42
              toy_exports (mkCtx unit tt 0) (toy_cworld toy_heap1))
    as (cw' & H1 & _ & H3); [discriminate | reflexivity | discriminate | reflexivity |].
  exists cw'. split; [exact H1 | exact H3].
Defined.

Lemma wasmer_instance_context_data_set_frame_witness :
  exists cw',
    wasmer_instance_context_data_set _ _ _ (fun _ : toy_instance => 5) 1 42
      (toy_cworld toy_heap1) = CDone _ _ _ _ tt cw'
    /\ world _ _ _ cw' = toy_world toy_heap1 []
    /\ contexts _ _ _ cw' = {[5 := mkCtx unit tt 42]}.
Proof.
  assert (H : wasmer_instance_context_data_set _ _ _ (fun _ : toy_instance => 5) 1 42
                (toy_cworld toy_heap1)
              = CDone _ _ _ _ tt (mkCWorld _ _ _ (toy_world toy_heap1 [])
                                           {[5 := mkCtx unit tt 42]}))
    by (vm_compute; reflexivity).
  eexists. split; [exact H|].
  destruct (wasmer_instance_context_data_set_frame toy_instance N unit (fun _ => 5) 1 42
              (toy_cworld toy_heap1) _ H) as [Hw _].
  split; [exact Hw | reflexivity].
Defined.

Lemma wasmer_instance_destroy_use_after_free_witness :
  (1 : ptr) <> 0 /\
  exists cw',
    wasmer_instance_destroy _ _ _ (fun _ : toy_instance => 5) 1 (toy_cworld toy_heap1)
      = CDone _ _ _ _ tt cw'
    /\ wasmer_instance_destroy _ _ _ (fun _ : toy_instance => 5) 1 cw' = CUndefined _ _ _ _
    /\ wasmer_instance_context_data_get _ _ _ 5 cw' = CUndefined _ _ _ _.
Proof.
  split; [discriminate|].
  destruct (wasmer_instance_destroy_use_after_free toy_instance string N toy_error_to_string
              (fun i => i) toy_call toy_value_of_wasmer_value (fun i => i) (fun _ => 0)
              (fun _ => []) (fun _ => []) unit (fun _ => 5) (fun _ _ => Ok 9) 1 toy_exports
              (toy_cworld toy_heap1))
    as (cw' & H1 & _ & _ & H4 & _ & _ & H7 & _); [discriminate | reflexivity |].
  exists cw'. split; [exact H1|]. split; [exact H4|]. apply H7. discriminate.
Defined.

Lemma wasmer_instance_exports_outlive_destroy_witness :
  heap_wf _ _ (toy_world toy_heap1 []) /\
  exists w1 cw2,
    wasmer_instance_exports _ _ (fun i : toy_instance => i) 1 (toy_world toy_heap1 [])
      = Done _ _ _ tt w1
    /\ wasmer_instance_destroy _ _ _ (fun _ : toy_instance => 5) 1
         (mkCWorld _ _ _ w1 {[5 := mkCtx unit tt 0]}) = CDone _ _ _ _ tt cw2
    /\ heap _ _ (world _ _ _ cw2) !! 1 = None
    /\ exports_out _ _ w1 = 2.
Proof.
  assert (Hwf : heap_wf toy_instance N (toy_world toy_heap1 [])).
  { split; [cbn; lia|]. split; [reflexivity|].
    intros a Ha. cbn in *. rewrite lookup_singleton_ne by lia. reflexivity. }
  split; [exact Hwf|].
  destruct (wasmer_instance_exports_outlive_destroy toy_instance N (fun i => i) unit
              (fun _ => 5) 1 toy_exports (toy_cworld toy_heap1))
    as (w1 & cw2 & H1 & H2 & H3 & _); [exact Hwf | discriminate | reflexivity |].
  exists w1, cw2. split; [exact H1|]. split; [exact H2|]. split; [exact H3|].
  injection H1 as <-. reflexivity.
Defined.

Lemma entry_points_return_fresh_boxes_witness :
  heap_wf _ _ (toy_world ∅ []) /\
  exists w',
    toy_instantiate (Some [x00]) [] (toy_world ∅ []) = Done _ _ _ WASMER_OK w'
    /\ instance_out _ _ w' <> 0
    /\ heap _ _ (toy_world ∅ []) !! instance_out _ _ w' = None.
Proof.
  assert (Hwf : heap_wf toy_instance N (toy_world ∅ [])).
  { split; [cbn; lia|]. split; [reflexivity|]. intros a Ha. reflexivity. }
  split; [exact Hwf|].
  assert (H : toy_instantiate (Some [x00]) [] (toy_world ∅ []) =
                Done _ _ _ WASMER_OK
                  (mkWorld toy_instance N None {[2 := HInstance toy_instance toy_exports]}
                           3 2 0 [] []))
    by (vm_compute; reflexivity).
  eexists. split; [exact H|].
  destruct (entry_points_return_fresh_boxes toy_instance unit string N toy_error_to_string
              toy_runtime_instantiate toy_compile_with toy_module_instantiate ∅
              (fun i _ => i) (fun i => i) (toy_world ∅ [])
              (mkWorld toy_instance N None {[2 := HInstance toy_instance toy_exports]}
                       3 2 0 [] []) Hwf) as [Hi _].
  destruct (Hi (Some [x00]) [] H) as (H1 & H2 & _).
  split; [exact H1 | exact H2].
Defined.

Lemma wasmer_instance_call_ok_writes_first_result_witness :
  (1 : ptr) <> 0 /\ (x00 ∉ [x73; x75; x6d]) /\ from_utf8 [x73; x75; x6d] = Some "sum" /\
  exists w',
    toy_instance_call 1 (Some [x73; x75; x6d; x00]) (Some [])
      (toy_world toy_heap1 [{| tag := WASM_I32; value := wasmer_value.I32 0 |};
                            {| tag := WASM_I64; value := wasmer_value.I64 1 |}])
      = Done _ _ _ WASMER_OK w'
    /\ results_buf _ _ w' = [{| tag := WASM_I32; value := wasmer_value.I32 7 |};
                             {| tag := WASM_I64; value := wasmer_value.I64 1 |}].
Proof.
  split; [discriminate|]. split; [apply not_in_byte_list; reflexivity|].
  split; [reflexivity|].
  destruct (wasmer_instance_call_ok_writes_first_result toy_instance string N
              toy_error_to_string toy_call toy_value_of_wasmer_value (fun i => i)
              (fun _ => 0) (fun _ => []) (fun _ => []) 1 [x73; x75; x6d] "sum" []
              toy_exports toy_exports (Value.I32 7) []
              {| tag := WASM_I32; value := wasmer_value.I32 0 |}
              [{| tag := WASM_I64; value := wasmer_value.I64 1 |}]
              (toy_world toy_heap1 [{| tag := WASM_I32; value := wasmer_value.I32 0 |};
                                    {| tag := WASM_I64; value := wasmer_value.I64 1 |}]))
    as (w' & rv & H1 & H2 & H3 & _);
    [discriminate | apply not_in_byte_list; reflexivity | reflexivity | reflexivity
    | reflexivity | intros x; discriminate | reflexivity |].
  exists w'. split; [exact H1|]. rewrite H3.
  cbn in H2. injection H2 as <-. reflexivity.
Defined.

Lemma wasmer_instance_call_error_message_witness :
  (1 : ptr) <> 0 /\ (x00 ∉ [x73; x75; x6d]) /\ from_utf8 [x73; x75; x6d] = Some "sum" /\
  exists w',
    wasmer_instance_call toy_instance string N toy_error_to_string
      (fun i _ _ => (i, Err "unreachable")) toy_value_of_wasmer_value (fun i => i)
      (fun _ => 0) (fun _ => []) (fun _ => []) 1 (Some [x73; x75; x6d; x00]) (Some [])
      (toy_world toy_heap1 []) = Done _ _ _ WASMER_ERROR w'
    /\ last_error _ _ w' = Some "unreachable".
Proof.
  split; [discriminate|]. split; [apply not_in_byte_list; reflexivity|].
  split; [reflexivity|].
  destruct (wasmer_instance_call_error_message toy_instance string N
              toy_error_to_string (fun i _ _ => (i, Err "unreachable"))
              toy_value_of_wasmer_value (fun i => i) (fun _ => 0) (fun _ => []) (fun _ => [])
              1 [x73; x75; x6d] "sum" [] toy_exports toy_exports "unreachable"
              (toy_world toy_heap1 []))
    as (w' & H1 & H2 & _);
    [discriminate | apply not_in_byte_list; reflexivity | reflexivity | reflexivity
    | reflexivity |].
  exists w'. split; [exact H1 | exact H2].
Defined.

Lemma wasmer_instance_call_opcode_report_witness :
  (1 : ptr) <> 0 /\ (x00 ∉ [x73; x75; x6d]) /\ from_utf8 [x73; x75; x6d] = Some "sum" /\
  exists w',
    wasmer_instance_call toy_instance string N toy_error_to_string toy_call
      toy_value_of_wasmer_value (fun i => i) (fun _ => 3) (fun _ => ["f"])
      (fun _ => [("sum", 0)]) 1 (Some [x73; x75; x6d; x00]) (Some [])
      (toy_world toy_heap1 [{| tag := WASM_I32; value := wasmer_value.I32 0 |}])
      = Done _ _ _ WASMER_OK w'
    /\ stdout _ _ w' = [LImport _ 0%nat "f"; LExport _ 0 "sum"; LLastLocation _ 3].
Proof.
  split; [discriminate|]. split; [apply not_in_byte_list; reflexivity|].
  split; [reflexivity|].
  assert (H : wasmer_instance_call toy_instance string N toy_error_to_string toy_call
      toy_value_of_wasmer_value (fun i => i) (fun _ => 3) (fun _ => ["f"])
      (fun _ => [("sum", 0)]) 1 (Some [x73; x75; x6d; x00]) (Some [])
      (toy_world toy_heap1 [{| tag := WASM_I32; value := wasmer_value.I32 0 |}])
      = Done _ _ _ WASMER_OK
          (mkWorld toy_instance N None toy_heap1 2 0 0
             [{| tag := WASM_I32; value := wasmer_value.I32 7 |}]
             [LImport _ 0%nat "f"; LExport _ 0 "sum"; LLastLocation _ 3]))
    by (vm_compute; reflexivity).
  eexists. split; [exact H|].
  rewrite (wasmer_instance_call_opcode_report toy_instance string N toy_error_to_string
             toy_call toy_value_of_wasmer_value (fun i => i) (fun _ => 3) (fun _ => ["f"])
             (fun _ => [("sum", 0)]) 1 [x73; x75; x6d] "sum" [] toy_exports toy_exports
             (Ok [Value.I32 7])
             (toy_world toy_heap1 [{| tag := WASM_I32; value := wasmer_value.I32 0 |}])
             _ WASMER_OK);
    [reflexivity | discriminate | apply not_in_byte_list; reflexivity | reflexivity
    | reflexivity | reflexivity | exact H].
Defined.

Lemma register_imports_bindings_witness :
  Forall import_valid [env_import 1] /\
  exists namespaces : gmap string Namespace,
    register_imports toy_instance N [env_import 1] ∅ (toy_world ∅ []) =
      Done _ _ _ (Ok namespaces) (toy_world ∅ [])
    /\ is_Some (namespaces !! "env")
    /\ ~ is_Some (namespaces !! "env" ≫= (.!! "g")).
Proof.
  assert (Hv : Forall import_valid [env_import 1]).
  { constructor; [|constructor]. split; [eexists; reflexivity|].
    split; eexists; reflexivity. }
  split; [exact Hv|].
  destruct (register_imports_bindings toy_instance N [env_import 1] (toy_world ∅ []) Hv)
    as (nss & H1 & H2 & H3 & _).
  exists nss. split; [exact H1|]. split.
  - apply H3. constructor. reflexivity.
  - rewrite H2. rewrite Exists_cons, Exists_nil. intros [[_ Hn]|[]]. discriminate.
Defined.
